(** * Media review system: a shallow embedding of [media_review.py]

    The program is a command-line service over one SQLite store and one
    Redis cache.  The embedding follows the source function by function:

    - the store is a record of tables, each table the list of its rows in
      rowid order; a statement the engine answers from the index of a
      [UNIQUE] constraint returns its rows in the order of that index;
      the cache is the Redis key space with a reachability flag;
    - every function of the source is a computation in the monad [M], which
      threads the world (store, cache, observable trace) and a Python
      exception, so that side effects performed before an exception persist,
      as they do in the program ([DatabaseConnection.__exit__] commits on
      every exit path);
    - integers are the values of the CLI's [int] arguments and of SQLite
      INTEGER columns, modelled as [Z]; text is [string]; the value of the
      SQL aggregate [AVG] is an IEEE double, modelled as a primitive float.

    The [AUTOINCREMENT] id of the reviews, alerts and favorites tables and
    the defaulted [timestamp] columns are assigned by the engine and are read
    by no statement of the program; these rows carry the remaining columns.
    The tables are those the two schema scripts leave behind when both have
    run: users, media, reviews and alerts as declared in [media_review.py]
    (the program's [add_user] writes the password column that only this
    users table has), favorites as declared in [init.py], its only
    declaration. *)

From Stdlib Require Import ZArith List PrimFloat SpecFloat FloatOps Permutation Sorted Lia.
From stdpp Require Import base strings gmap pretty list.
From Stdlib Require Import Ascii.

Local Open Scope Z_scope.

(** ** Store, cache and trace *)

Record user_row := { u_id : Z; u_username : string; u_password : string }.
Record media_row := { m_id : Z; m_title : string; m_type : string }.
Record review_row :=
  { r_user_id : Z; r_media_id : Z; r_rating : Z; r_comment : string }.
Record alert_row := { a_user_id : Z; a_alert : string }.
Record favorite_row := { f_user_id : Z; f_media_id : Z }.

Record database := {
  users : list user_row;
  media : list media_row;
  reviews : list review_row;
  alerts : list alert_row;
  favorites : list favorite_row
}.

(** The Redis server behind the module-level handle [cache]: whether it
    answers, and for each key its value and the [ex] seconds it was set with.
    Expiry happens in the server as time passes, between calls. *)
Record redis := { reachable : bool; entries : gmap string (string * Z) }.

(** The argument of [list_media]: the string ["all"], or a value on which
    [int(limit)] yields [n]. *)
Inductive limit := All | Count (n : Z).

(** One element of the [reviews] argument of [add_review]:
    [(media_id, rating, comment)]. *)
Definition review_item : Type := Z * Z * string.

(** The SQL statements the modelled functions execute. *)
Inductive statement :=
| SelectUserById (user_id : Z)
| InsertReview (row : review_row)
| SelectFavoriteUsers (media_id : Z)
| InsertAlert (row : alert_row)
| InsertFavorite (row : favorite_row)
| SelectCatalog (lim : option Z)
| DeleteUser (user_id : Z).

Inductive event :=
| Print (line : string)
| LogWarning (msg : string)
| CacheGet (key : string)
| CacheSet (key value : string) (ex : Z)
| Execute (sql : statement)
| ThreadStart (item : review_item).

Inductive exn :=
| TypeError
| ConnectionError
| IntegrityError (msg : string).

Inductive result (A : Type) :=
| Ok (a : A)
| Raise (e : exn).
Arguments Ok {A} a.
Arguments Raise {A} e.

Record world := { w_db : database; w_cache : redis; w_trace : list event }.

(** ** The effect monad *)

Definition M (A : Type) : Type := world -> result A * world.

Definition ret {A} (a : A) : M A := fun w => (Ok a, w).

Definition raise {A} (e : exn) : M A := fun w => (Raise e, w).

Definition bind {A B} (m : M A) (f : A -> M B) : M B :=
  fun w =>
    match m w with
    | (Ok a, w') => f a w'
    | (Raise e, w') => (Raise e, w')
    end.

Notation "'do' x <- m ; k" := (bind m (fun x => k))
  (at level 10, x name, m at level 100, k at level 200).
Notation "m ;; k" := (bind m (fun _ => k))
  (at level 100, k at level 200, right associativity).

Definition emit (e : event) : M unit :=
  fun w =>
    (Ok tt, {| w_db := w_db w; w_cache := w_cache w; w_trace := w_trace w ++ [e] |}).

Definition print (line : string) : M unit := emit (Print line).

Definition read_db : M database := fun w => (Ok (w_db w), w).

Definition write_db (d : database) : M unit :=
  fun w => (Ok tt, {| w_db := d; w_cache := w_cache w; w_trace := w_trace w |}).

Definition read_cache : M redis := fun w => (Ok (w_cache w), w).

Definition write_cache (c : redis) : M unit :=
  fun w => (Ok tt, {| w_db := w_db w; w_cache := c; w_trace := w_trace w |}).

(** [for x in xs: body(x)] *)
Fixpoint for_each {A} (xs : list A) (body : A -> M unit) : M unit :=
  match xs with
  | [] => ret tt
  | x :: xs' => body x ;; for_each xs' body
  end.

(** [[f(x) for x in xs]] *)
Fixpoint comprehension {A B} (f : A -> M B) (xs : list A) : M (list B) :=
  match xs with
  | [] => ret []
  | x :: xs' => do y <- f x; do ys <- comprehension f xs'; ret (y :: ys)
  end.

(** ** Media taxonomy *)

Inductive class := Media | Movie | WebShow | Cartoon | Song.

(** The fields of the dataclass [Media], inherited by its subclasses. *)
Record instance := { cls : class; title : string; type : string }.

(** [__abstractmethods__]: [Media] declares [get_details] abstract and each
    subclass overrides it. *)
Definition abstractmethods (c : class) : list string :=
  match c with
  | Media => ["get_details"%string]
  | Movie | WebShow | Cartoon | Song => []
  end.

(** The call [c(title, type)]: a class with abstract methods left cannot be
    instantiated, the call raises [TypeError]. *)
Definition new (c : class) (title type : string) : M instance :=
  match abstractmethods c with
  | [] => ret {| cls := c; title := title; type := type |}
  | _ :: _ => raise TypeError
  end.

(** [get_details]; the body of the abstract method is [pass], which returns
    [None]. *)
Definition get_details (self : instance) : option string :=
  match cls self with
  | Media => None
  | Movie => Some ("Movie: " +:+ title self)
  | WebShow => Some ("WebShow: " +:+ title self)
  | Cartoon => Some ("Cartoon: " +:+ title self)
  | Song => Some ("Song: " +:+ title self)
  end.

Module MediaFactory.

Definition media_classes : gmap string class :=
  <["Movie"%string := Movie]> (<["WebShow"%string := WebShow]>
    (<["Song"%string := Song]> ∅)).

Definition create_media (title media_type : string) : M instance :=
  match media_classes !! media_type with
  | Some c => new c title media_type
  | None =>
      emit (LogWarning ("Unknown media type '" +:+ media_type +:+
                        "' for title '" +:+ title +:+
                        "'. Defaulting to generic media.")) ;;
      new Media title media_type
  end.

End MediaFactory.

(** An empty store, a reachable empty cache, nothing observed yet. *)
Definition empty_db : database :=
  {| users := []; media := []; reviews := []; alerts := []; favorites := [] |}.

Definition world0 : world :=
  {| w_db := empty_db;
     w_cache := {| reachable := true; entries := ∅ |};
     w_trace := [] |}.

(** ** The cache handle *)

Module cache.

Definition get (key : string) : M (option string) :=
  emit (CacheGet key) ;;
  do c <- read_cache;
  if reachable c then ret (fst <$> entries c !! key)
  else raise ConnectionError.

Definition set (key value : string) (ex : Z) : M unit :=
  emit (CacheSet key value ex) ;;
  do c <- read_cache;
  if reachable c
  then write_cache {| reachable := true;
                      entries := <[key := (value, ex)]> (entries c) |}
  else raise ConnectionError.

End cache.

(** ** The statements, as the store executes them *)

(** SQLite enforces foreign keys only on a connection that has issued
    [PRAGMA foreign_keys = ON]; no connection of the program does. *)
Definition PRAGMA_foreign_keys : bool := false.

Definition execute (sql : statement) : M unit := emit (Execute sql).

Definition with_reviews (d : database) (rs : list review_row) : database :=
  {| users := users d; media := media d; reviews := rs;
     alerts := alerts d; favorites := favorites d |}.

Definition with_alerts (d : database) (al : list alert_row) : database :=
  {| users := users d; media := media d; reviews := reviews d;
     alerts := al; favorites := favorites d |}.

Definition with_favorites (d : database) (fs : list favorite_row) : database :=
  {| users := users d; media := media d; reviews := reviews d;
     alerts := alerts d; favorites := fs |}.

(** The order in which a scan of an index returns the rows of its table:
    by their keys, which [leb] compares, rows with equal keys in the order of
    the table. *)
Fixpoint index_insert {A} (leb : A -> A -> bool) (x : A) (l : list A)
  : list A :=
  match l with
  | [] => [x]
  | y :: l' => if leb x y then x :: l else y :: index_insert leb x l'
  end.

Definition index_scan {A} (leb : A -> A -> bool) (rows : list A) : list A :=
  fold_right (index_insert leb) [] rows.

(** [SELECT id FROM users WHERE id = ?] followed by [fetchone()] *)
Definition select_user_by_id (user_id : Z) : M (option Z) :=
  execute (SelectUserById user_id) ;;
  do d <- read_db;
  ret (head (List.filter (fun i => i =? user_id) (map u_id (users d)))).

(** [INSERT INTO reviews (user_id, media_id, rating, comment) VALUES (?, ?, ?, ?)];
    the table declares [rating INTEGER NOT NULL] and nothing more. *)
Definition insert_review (row : review_row) : M unit :=
  execute (InsertReview row) ;;
  do d <- read_db;
  write_db (with_reviews d (reviews d ++ [row])).

(** The order of the keys in the index of [UNIQUE(user_id, media_id)]. *)
Definition favorite_key_leb (a b : favorite_row) : bool :=
  (f_user_id a <? f_user_id b) ||
  ((f_user_id a =? f_user_id b) && (f_media_id a <=? f_media_id b)).

(** [SELECT user_id FROM favorites WHERE media_id = ?] and the list
    [[row[0] for row in cursor.fetchall()]].  The index of the table's
    [UNIQUE(user_id, media_id)] holds both columns of the statement and the
    engine answers from a scan of it, so the users come in ascending
    order, not in the order in which the favorites were added. *)
Definition select_favorite_users (media_id : Z) : M (list Z) :=
  execute (SelectFavoriteUsers media_id) ;;
  do d <- read_db;
  ret (map f_user_id
         (List.filter (fun f => f_media_id f =? media_id)
            (index_scan favorite_key_leb (favorites d)))).

(** [INSERT INTO alerts (user_id, alert) VALUES (?, ?)] *)
Definition insert_alert (row : alert_row) : M unit :=
  execute (InsertAlert row) ;;
  do d <- read_db;
  write_db (with_alerts d (alerts d ++ [row])).

Definition same_pair (a b : favorite_row) : bool :=
  (f_user_id a =? f_user_id b) && (f_media_id a =? f_media_id b).

(** [INSERT INTO favorites (user_id, media_id) VALUES (?, ?)] on a table
    declared [UNIQUE(user_id, media_id) ON CONFLICT IGNORE]: a row that
    would break uniqueness is skipped and the statement succeeds. *)
Definition insert_favorite (row : favorite_row) : M unit :=
  execute (InsertFavorite row) ;;
  do d <- read_db;
  if existsb (same_pair row) (favorites d) then ret tt
  else write_db (with_favorites d (favorites d ++ [row])).

(** [DELETE FROM users WHERE id = ?], returning [cursor.rowcount].  With
    foreign keys enforced, the children declared [ON DELETE CASCADE]
    (reviews, alerts) go with the user, and a child in favorites, declared
    without an action, makes the statement fail.  Without enforcement only
    the users table changes. *)
Definition delete_user (foreign_keys : bool) (user_id : Z) : M nat :=
  execute (DeleteUser user_id) ;;
  do d <- read_db;
  let deleted := List.filter (fun u => u_id u =? user_id) (users d) in
  let kept := List.filter (fun u => negb (u_id u =? user_id)) (users d) in
  match deleted with
  | [] => ret 0%nat
  | _ :: _ =>
      if foreign_keys then
        if existsb (fun f => f_user_id f =? user_id) (favorites d)
        then raise (IntegrityError "FOREIGN KEY constraint failed")
        else
          write_db
            {| users := kept; media := media d;
               reviews := List.filter (fun r => negb (r_user_id r =? user_id))
                            (reviews d);
               alerts := List.filter (fun a => negb (a_user_id a =? user_id))
                           (alerts d);
               favorites := favorites d |} ;;
          ret (length deleted)
      else
        write_db
          {| users := kept; media := media d; reviews := reviews d;
             alerts := alerts d; favorites := favorites d |} ;;
        ret (length deleted)
  end.

(** The value of a result column that is a double or a text. *)
Inductive sql_value := Text (s : string) | Real (x : float).

(** [(double)z] *)
Definition real_of_int (z : Z) : float :=
  SF2Prim (binary_normalize prec emax z 0 false).

(** [AVG] over the integer ratings of a group: NULL for no row, otherwise
    the sum of the ratings, which SQLite adds as integers, and the row count,
    both converted to doubles and divided. *)
Definition AVG (xs : list Z) : option float :=
  match xs with
  | [] => None
  | _ :: _ =>
      Some (PrimFloat.div (real_of_int (fold_right Z.add 0 xs))
                          (real_of_int (Z.of_nat (length xs))))
  end.

Definition IFNULL (x : option float) (alt : string) : sql_value :=
  match x with
  | Some r => Real r
  | None => Text alt
  end.

(** The ratings the left join pairs with media [media_id]. *)
Definition ratings_of (d : database) (media_id : Z) : list Z :=
  map r_rating (List.filter (fun r => r_media_id r =? media_id) (reviews d)).

Definition catalog_row : Type := Z * string * string * sql_value.

(** One group of [GROUP BY m.id]; [m.id] is the primary key, so a group is
    one media row with the reviews joined to it. *)
Definition catalog_group (d : database) (m : media_row) : catalog_row :=
  (m_id m, m_title m, m_type m,
   IFNULL (AVG (ratings_of d (m_id m))) "No Ratings").

(** [LIMIT ?]: a negative bound means no bound. *)
Definition LIMIT {A} (n : Z) (rows : list A) : list A :=
  if n <? 0 then rows else take (Z.to_nat n) rows.

(** The rows of the catalog query of [list_media]; [lim] is the bound
    parameter of the [LIMIT ?] the bounded call appends. *)
Definition catalog (d : database) (lim : option Z) : list catalog_row :=
  let groups := map (catalog_group d) (media d) in
  match lim with
  | Some n => LIMIT n groups
  | None => groups
  end.

(** [cursor.execute(query ...)] and [cursor.fetchall()] *)
Definition select_catalog (lim : option Z) : M (list catalog_row) :=
  execute (SelectCatalog lim) ;;
  do d <- read_db;
  ret (catalog d lim).

(** ** The operations of the program *)

Definition add_favorite (user_id media_id : Z) : M unit :=
  insert_favorite {| f_user_id := user_id; f_media_id := media_id |} ;;
  print ("Media ID " +:+ pretty media_id +:+
         " added to favorites for User ID " +:+ pretty user_id +:+ "!").

(** One row of [table_data]: [[row[0], details, row[3]]]. *)
Definition table_row : Type := Z * option string * sql_value.

Definition table_data (results : list catalog_row) : M (list table_row) :=
  comprehension
    (fun row : catalog_row =>
       let '(id, row_title, row_type, avg_rating) := row in
       do obj <- MediaFactory.create_media row_title row_type;
       ret (id, get_details obj, avg_rating))
    results.

Definition truthy (s : string) : bool := negb (String.eqb s "").

Section Listing.

(** [tabulate(table_data, headers=headers, tablefmt="grid")], the renderer of
    the external package. *)
Variable tabulate : list table_row -> string.

(** The part of [list_media] after the cache test. *)
Definition fetch_from_database (limit : limit) : M unit :=
  print "Fetching from database..." ;;
  do results <- match limit with
                | Count n => select_catalog (Some n)
                | All => select_catalog None
                end;
  match results with
  | [] => print "No media found. Please add media first!"
  | _ :: _ =>
      do rows <- table_data results;
      let table_output := tabulate rows in
      print table_output ;;
      cache.set "media_list" table_output 60
  end.

Definition list_media (limit : limit) : M unit :=
  do cached_media <- cache.get "media_list";
  match cached_media, limit with
  | Some text, All =>
      if truthy text
      then print "Fetching from cache..." ;; print text
      else fetch_from_database limit
  | _, _ => fetch_from_database limit
  end.

End Listing.

(** The body of a thread: an exception that escapes it ends that thread
    only, what it wrote before stays. *)
Definition thread (target : M unit) : M unit :=
  fun w => (Ok tt, snd (target w)).

Definition alert_message (user_id media_id : Z) : string :=
  "User " +:+ pretty user_id +:+ " added a review for media ID " +:+
  pretty media_id +:+ ".".

Definition review_task (user_id : Z) (item : review_item) : M unit :=
  let '(media_id, rating, comment) := item in
  insert_review {| r_user_id := user_id; r_media_id := media_id;
                   r_rating := rating; r_comment := comment |} ;;
  do favorite_users <- select_favorite_users media_id;
  for_each favorite_users
    (fun fav_user_id =>
       if negb (fav_user_id =? user_id)
       then insert_alert {| a_user_id := fav_user_id;
                            a_alert := alert_message user_id media_id |}
       else ret tt) ;;
  print ("Review submitted for Media ID " +:+ pretty media_id +:+ "!").

(** [add_review(user_id, reviews)].  Each thread runs [review_task] as one
    write transaction on a connection of its own, and the store admits one
    write transaction at a time.  A thread that does not get the write lock
    within the busy timeout of its connection (5 seconds, the default of
    [sqlite3.connect]; the program does not retry) ends with the engine's
    "database is locked" error: it has written nothing and prints nothing,
    and the other threads go on.  [schedule] lists the items whose
    transactions commit, in the order of the commits: a permutation of
    [reviews] when no thread fails, as in a batch of one item, whose thread
    has no other thread to wait for, and a permutation of a part of
    [reviews] otherwise.  The trace shows the threads started in program
    order, then the transactions in the order of [schedule]; the final
    [join] loop returns once all threads have ended. *)
Definition add_review (schedule : list review_item) (user_id : Z)
    (reviews : list review_item) : M unit :=
  do user <- select_user_by_id user_id;
  match user with
  | None => print "Invalid user ID. Review submission failed."
  | Some _ =>
      for_each reviews (fun item => emit (ThreadStart item)) ;;
      for_each schedule (fun item => thread (review_task user_id item))
  end.

(** [try: ... except sqlite3.Error as e: ...] *)
Definition except_sqlite3_Error {A} (body : M A) (handler : string -> M A) : M A :=
  fun w =>
    match body w with
    | (Raise (IntegrityError msg), w') => handler msg w'
    | other => other
    end.

Definition remove_user (user_id : Z) : M unit :=
  except_sqlite3_Error
    (do rowcount <- delete_user PRAGMA_foreign_keys user_id;
     match rowcount with
     | O => print ("No user found with ID " +:+ pretty user_id +:+ ".")
     | S _ => print ("User with ID " +:+ pretty user_id +:+
                     " removed successfully.")
     end)
    (fun e => print ("Error: " +:+ e)).

(** ** Sample data *)

Definition alice : user_row :=
  {| u_id := 1; u_username := "alice"; u_password := "pw" |}.
Definition bob : user_row :=
  {| u_id := 2; u_username := "bob"; u_password := "pw" |}.

Definition heat : media_row :=
  {| m_id := 1; m_title := "Heat"; m_type := "Movie" |}.
Definition dark : media_row :=
  {| m_id := 2; m_title := "Dark"; m_type := "WebShow" |}.

(** Two users, two media items, bob has favorited media 1. *)
Definition sample_db : database :=
  {| users := [alice; bob]; media := [heat; dark]; reviews := [];
     alerts := [];
     favorites := [{| f_user_id := 2; f_media_id := 1 |}] |}.

Definition sample_world : world :=
  {| w_db := sample_db;
     w_cache := {| reachable := true; entries := ∅ |};
     w_trace := [] |}.

(** A plain renderer to instantiate [tabulate] with: the details column of
    the rows, separated by bars. *)
Definition plain_table (rows : list table_row) : string :=
  String.concat "|" (map (fun r : table_row => default "" (snd (fst r))) rows).

(** The whole number a double starts with. *)
Definition integer_part (x : float) : Z :=
  match Prim2SF x with
  | S754_finite s m e =>
      let n := if 0 <=? e then Z.pos m * 2 ^ e else Z.pos m / 2 ^ (- e) in
      if s then - n else n
  | _ => 0
  end.

(** A renderer that shows the rating column as well: after the details of
    a row, the text of the column or the integer part of its number. *)
Definition rating_table (rows : list table_row) : string :=
  String.concat "|"
    (map (fun r : table_row =>
            default "" (snd (fst r)) +:+ " - " +:+
            match snd r with
            | Text t => t
            | Real x => pretty (integer_part x)
            end) rows).

(** The sample store listed with [list_media("all")], which caches the
    listing, and then given a review of media 1 with rating 4 by user 1. *)
Definition listed_then_rated_world : world :=
  snd (add_review [(1, 4, "good"%string)] 1 [(1, 4, "good"%string)]
         (snd (list_media rating_table All sample_world))).

(** ** Vocabulary of the statements *)

(** The alerts addressed to one user. *)
Definition alerts_of (user_id : Z) (al : list alert_row) : list alert_row :=
  List.filter (fun a => a_user_id a =? user_id) al.

Definition favorited (d : database) (user_id media_id : Z) : Prop :=
  In {| f_user_id := user_id; f_media_id := media_id |} (favorites d).

(** The favorites table obeys its [UNIQUE(user_id, media_id)] constraint. *)
Definition unique_favorites (d : database) : Prop := NoDup (favorites d).

(** The users [review_task] alerts: those its [SELECT] returns, without the
    reviewer. *)
Definition recipients (d : database) (user_id media_id : Z) : list Z :=
  List.filter (fun fav_user_id => negb (fav_user_id =? user_id))
    (map f_user_id
       (List.filter (fun f => f_media_id f =? media_id)
          (index_scan favorite_key_leb (favorites d)))).

Definition alert_to (user_id media_id recipient : Z) : alert_row :=
  {| a_user_id := recipient; a_alert := alert_message user_id media_id |}.

(** The row [review_task] inserts for one item of the batch. *)
Definition review_of (user_id : Z) (item : review_item) : review_row :=
  let '(media_id, rating, comment) := item in
  {| r_user_id := user_id; r_media_id := media_id;
     r_rating := rating; r_comment := comment |}.

(** The alerts one item gives rise to, and those of a sequence of items. *)
Definition item_alerts (d : database) (user_id : Z) (item : review_item)
  : list alert_row :=
  map (alert_to user_id (fst (fst item)))
    (recipients d user_id (fst (fst item))).

Definition batch_alerts (d : database) (user_id : Z)
    (items : list review_item) : list alert_row :=
  flat_map (item_alerts d user_id) items.

Definition after_tasks (d : database) (user_id : Z)
    (items : list review_item) : database :=
  {| users := users d; media := media d;
     reviews := reviews d ++ map (review_of user_id) items;
     alerts := alerts d ++ batch_alerts d user_id items;
     favorites := favorites d |}.

(** The cache operations among the events of a trace. *)
Definition cache_events (tr : list event) : list event :=
  List.filter
    (fun e => match e with
              | CacheGet _ | CacheSet _ _ _ => true
              | _ => false
              end) tr.

(** The bound parameter the call [list_media(limit)] passes to the query. *)
Definition bound (limit : limit) : option Z :=
  match limit with
  | All => None
  | Count n => Some n
  end.

(** The world after further events and nothing else. *)
Definition after_events (w : world) (tr : list event) : world :=
  {| w_db := w_db w; w_cache := w_cache w; w_trace := w_trace w ++ tr |}.

(** The test [cached_media and limit == "all"] of [list_media], on the
    value the cache holds under "media_list". *)
Definition serves_from_cache (limit : limit) (c : redis) : bool :=
  match entries c !! "media_list"%string, limit with
  | Some (text, _), All => truthy text
  | _, _ => false
  end.

(** The sample store with the cache server down. *)
Definition cache_down_world : world :=
  {| w_db := sample_db;
     w_cache := {| reachable := false; entries := ∅ |};
     w_trace := [] |}.

(** A store in which user 1 owns a review, an alert and a favorite. *)
Definition owner_db : database :=
  {| users := [alice; bob]; media := [heat];
     reviews := [{| r_user_id := 1; r_media_id := 1; r_rating := 5;
                    r_comment := "Great movie!" |}];
     alerts := [{| a_user_id := 1;
                   a_alert := "User 2 added a review for media ID 1." |}];
     favorites := [{| f_user_id := 1; f_media_id := 1 |}] |}.

Definition owner_world : world :=
  {| w_db := owner_db;
     w_cache := {| reachable := true; entries := ∅ |};
     w_trace := [] |}.

(** The sample store with a listing already cached. *)
Definition cached_world : world :=
  {| w_db := sample_db;
     w_cache := {| reachable := true;
                   entries := {[ "media_list"%string :=
                                   ("Movie: Heat|WebShow: Dark"%string, 60) ]} |};
     w_trace := [] |}.

(** The sample store after one review of media 1 with rating 4. *)
Definition rated_db : database :=
  {| users := [alice; bob]; media := [heat; dark];
     reviews := [{| r_user_id := 1; r_media_id := 1; r_rating := 4;
                    r_comment := "good" |}];
     alerts := []; favorites := [] |}.

Definition rated_world : world :=
  {| w_db := rated_db;
     w_cache := {| reachable := true; entries := ∅ |};
     w_trace := [] |}.

(** ** Further operations of the program

    The statements of these operations are not part of the trace
    vocabulary; the operations show in the trace through what they print.
    An [INSERT] into users or media leaves the id to [AUTOINCREMENT]: the
    id the engine assigns is the argument [rowid], above every id the table
    has held. *)

Definition with_media (d : database) (ms : list media_row) : database :=
  {| users := users d; media := ms; reviews := reviews d;
     alerts := alerts d; favorites := favorites d |}.

Definition with_users (d : database) (us : list user_row) : database :=
  {| users := us; media := media d; reviews := reviews d;
     alerts := alerts d; favorites := favorites d |}.

Definition valid_types : list string :=
  ["Movie"; "WebShow"; "Song"; "Cartoon"]%string.

(** [media_type in valid_types] *)
Definition is_valid_type (media_type : string) : bool :=
  existsb (String.eqb media_type) valid_types.

(** [SELECT * FROM media WHERE title = ?] followed by [fetchone()] *)
Definition select_media_by_title (title : string) : M (option media_row) :=
  do d <- read_db;
  ret (head (List.filter (fun m => String.eqb (m_title m) title) (media d))).

(** [INSERT INTO media (title, type) VALUES (?, ?)]; the table declares
    [title TEXT UNIQUE NOT NULL]. *)
Definition insert_media (rowid : Z) (title media_type : string) : M unit :=
  do d <- read_db;
  if existsb (fun m => String.eqb (m_title m) title) (media d)
  then raise (IntegrityError "UNIQUE constraint failed: media.title")
  else write_db
         (with_media d
            (media d ++
             [{| m_id := rowid; m_title := title; m_type := media_type |}])).

Definition add_media (rowid : Z) (title media_type : string) : M unit :=
  except_sqlite3_Error
    (if negb (is_valid_type media_type)
     then print ("Invalid media type '" +:+ media_type +:+
                 "'. Choose from ['Movie', 'WebShow', 'Song', 'Cartoon'].")
     else
       do existing <- select_media_by_title title;
       match existing with
       | Some _ =>
           print ("Media item '" +:+ title +:+
                  "' already exists in the database.")
       | None =>
           insert_media rowid title media_type ;;
           print ("Media item '" +:+ title +:+
                  "' added successfully as a '" +:+ media_type +:+ "'!")
       end)
    (fun e => print ("Database Error: " +:+ e)).

(** [DELETE FROM media WHERE id = ?], returning [cursor.rowcount]; the
    children are the reviews, declared [ON DELETE CASCADE], and the
    favorites, declared without an action (see [delete_user]). *)
Definition delete_media (foreign_keys : bool) (media_id : Z) : M nat :=
  do d <- read_db;
  let deleted := List.filter (fun m => m_id m =? media_id) (media d) in
  let kept := List.filter (fun m => negb (m_id m =? media_id)) (media d) in
  match deleted with
  | [] => ret 0%nat
  | _ :: _ =>
      if foreign_keys then
        if existsb (fun f => f_media_id f =? media_id) (favorites d)
        then raise (IntegrityError "FOREIGN KEY constraint failed")
        else
          write_db
            {| users := users d; media := kept;
               reviews := List.filter (fun r => negb (r_media_id r =? media_id))
                            (reviews d);
               alerts := alerts d; favorites := favorites d |} ;;
          ret (length deleted)
      else
        write_db (with_media d kept) ;;
        ret (length deleted)
  end.

Definition remove_media (media_id : Z) : M unit :=
  except_sqlite3_Error
    (do rowcount <- delete_media PRAGMA_foreign_keys media_id;
     match rowcount with
     | O => print ("No media item found with ID " +:+ pretty media_id +:+ ".")
     | S _ => print ("Media item with ID " +:+ pretty media_id +:+
                     " removed successfully.")
     end)
    (fun e => print ("Error: " +:+ e)).

(** [INSERT INTO users (username, password) VALUES (?, ?)]; the table
    declares [username TEXT UNIQUE NOT NULL]. *)
Definition insert_user (rowid : Z) (username password : string) : M unit :=
  do d <- read_db;
  if existsb (fun u => String.eqb (u_username u) username) (users d)
  then raise (IntegrityError "UNIQUE constraint failed: users.username")
  else write_db
         (with_users d
            (users d ++
             [{| u_id := rowid; u_username := username;
                 u_password := password |}])).

(** No handler surrounds the statement: its error leaves [add_user]. *)
Definition add_user (rowid : Z) (username password : string) : M unit :=
  insert_user rowid username password ;;
  print "User added successfully!".

(** The order of the keys in the index of [username TEXT UNIQUE]: the
    texts compared byte by byte. *)
Definition username_leb (a b : user_row) : bool :=
  String.leb (u_username a) (u_username b).

(** [SELECT id, username FROM users] with [fetchall()].  The index of
    [username TEXT UNIQUE] holds both columns of the statement and the
    engine answers from a scan of it, so the rows come in the order of the
    usernames, not in the order of the ids. *)
Definition select_users : M (list user_row) :=
  do d <- read_db;
  ret (index_scan username_leb (users d)).

Definition list_users : M unit :=
  do found <- select_users;
  match found with
  | [] => print "No users found in the database."
  | _ :: _ =>
      print "User IDs and Usernames:" ;;
      for_each found
        (fun user => print ("ID: " +:+ pretty (u_id user) +:+
                            ", Username: " +:+ u_username user))
  end.

(** [SELECT alert FROM alerts WHERE user_id = ?] with [fetchall()] *)
Definition select_alerts (user_id : Z) : M (list string) :=
  do d <- read_db;
  ret (map a_alert (List.filter (fun a => a_user_id a =? user_id) (alerts d))).

Definition get_alerts (user_id : Z) : M unit :=
  do found <- select_alerts user_id;
  match found with
  | [] => print "No new alerts."
  | _ :: _ =>
      print "Your Alerts:" ;;
      for_each found (fun alert => print ("- " +:+ alert))
  end.

(** Texts are sequences of [ascii] characters, which is SQLite's view of an
    ASCII text; it folds the case of the ASCII letters only. *)
Definition tolower (c : ascii) : ascii :=
  let n := nat_of_ascii c in
  if ((65 <=? n) && (n <=? 90))%nat then ascii_of_nat (n + 32) else c.

Definition eq_nocase (a b : ascii) : bool := Ascii.eqb (tolower a) (tolower b).

(** [text LIKE pattern]: [%] stands for any run of characters, [_] for any
    one character, every other character for itself up to ASCII case. *)
Fixpoint like (pattern text : string) : bool :=
  match pattern with
  | EmptyString =>
      match text with
      | EmptyString => true
      | String _ _ => false
      end
  | String p pattern' =>
      if Ascii.eqb p "%"%char then
        (fix skip (t : string) : bool :=
           like pattern' t ||
           match t with
           | EmptyString => false
           | String _ t' => skip t'
           end) text
      else
        match text with
        | EmptyString => false
        | String c text' =>
            (Ascii.eqb p "_"%char || eq_nocase p c) && like pattern' text'
        end
  end.

(** [SELECT * FROM media WHERE title LIKE ?] with [fetchall()] *)
Definition select_media_like (pattern : string) : M (list media_row) :=
  do d <- read_db;
  ret (List.filter (fun m => like pattern (m_title m)) (media d)).

Definition search_media (title : string) : M unit :=
  do results <- select_media_like ("%" +:+ title +:+ "%");
  match results with
  | [] => print "No matching media found in the database"
  | _ :: _ =>
      for_each results
        (fun row => print ("ID: " +:+ pretty (m_id row) +:+
                           ", Title: " +:+ m_title row +:+
                           ", Type: " +:+ m_type row))
  end.

(** ** The command line

    The namespace [parse_args()] returns: a flag is a [bool], an option
    that was not given is [None], an option with [type=int] holds the
    integers argparse converted, and [--review] holds its three words as
    given. *)
Record arguments := {
  arg_add_media : option (string * string);
  arg_remove_media : option Z;
  arg_list : bool;
  arg_top_rated : bool;
  arg_search : option string;
  arg_add_user : option (string * string);
  arg_recommend : option Z;
  arg_review : option (string * string * string);
  arg_comment : option (list string);
  arg_favorite : option (Z * Z);
  arg_list_users : bool;
  arg_remove_user : option Z;
  arg_alerts : option Z
}.

(** The truth value of an optional integer and of an optional text in an
    [if]: [None], [0] and the empty text count as false. *)
Definition truthy_int (o : option Z) : option Z :=
  match o with
  | Some z => if z =? 0 then None else Some z
  | None => None
  end.

Definition truthy_text (o : option string) : option string :=
  match o with
  | Some t => if truthy t then Some t else None
  | None => None
  end.

Section CommandLine.

Variable tabulate : list table_row -> string.

(** The builtin [int] on a word: the integer, or the text of the
    [ValueError] it raises. *)
Variable py_int : string -> Z + string.

(** The two operations of the program that are not modelled here. *)
Variable get_top_rated : M unit.
Variable recommend_media : Z -> M unit.

(** The id the engine assigns if the command inserts a row. *)
Variable rowid : Z.

(** [user_id, media_id, rating = map(int, args.review)] *)
Definition parse_review (words : string * string * string)
  : Z * Z * Z + string :=
  let '(w1, w2, w3) := words in
  match py_int w1 with
  | inr e => inr e
  | inl user_id =>
      match py_int w2 with
      | inr e => inr e
      | inl media_id =>
          match py_int w3 with
          | inr e => inr e
          | inl rating => inl (user_id, media_id, rating)
          end
      end
  end.

(** The block under [if args.review:]. *)
Definition review_command (a : arguments) : M unit :=
  match arg_review a with
  | None => ret tt
  | Some words =>
      match parse_review words with
      | inl (user_id, media_id, rating) =>
          let comment :=
            match arg_comment a with
            | Some (word :: more) => String.concat " " (word :: more)
            | Some [] | None => "No comment provided"%string
            end in
          print ("Parsed: user_id=" +:+ pretty user_id +:+
                 ", media_id=" +:+ pretty media_id +:+
                 ", rating=" +:+ pretty rating +:+
                 ", comment=" +:+ comment) ;;
          add_review [(media_id, rating, comment)] user_id
            [(media_id, rating, comment)]
      | inr e =>
          print ("Error: user_id, media_id, and rating must be integers. "
                 +:+ e)
      end
  end.

(** The chain [if args.list: ... elif args.add_media: ... elif ...]. *)
Definition other_command (a : arguments) : M unit :=
  if arg_list a then list_media tabulate All
  else match arg_add_media a with
  | Some (title, media_type) => add_media rowid title media_type
  | None =>
  match truthy_int (arg_remove_media a) with
  | Some media_id => remove_media media_id
  | None =>
  if arg_top_rated a then get_top_rated
  else match truthy_text (arg_search a) with
  | Some text => search_media text
  | None =>
  match arg_add_user a with
  | Some (username, password) => add_user rowid username password
  | None =>
  match truthy_int (arg_recommend a) with
  | Some user_id => recommend_media user_id
  | None =>
  match arg_favorite a with
  | Some (user_id, media_id) => add_favorite user_id media_id
  | None =>
  if arg_list_users a then list_users
  else match truthy_int (arg_remove_user a) with
  | Some user_id => remove_user user_id
  | None =>
  match truthy_int (arg_alerts a) with
  | Some user_id => get_alerts user_id
  | None => ret tt
  end end end end end end end end.

(** The body under [if __name__ == "__main__":], after [parse_args()]. *)
Definition main (a : arguments) : M unit :=
  review_command a ;; other_command a.

End CommandLine.

(** No option given. *)
Definition no_arguments : arguments :=
  {| arg_add_media := None; arg_remove_media := None; arg_list := false;
     arg_top_rated := false; arg_search := None; arg_add_user := None;
     arg_recommend := None; arg_review := None; arg_comment := None;
     arg_favorite := None; arg_list_users := false;
     arg_remove_user := None; arg_alerts := None |}.

(** A stand-in for [int] on words: the decimal numerals of one digit. *)
Definition digit_int (word : string) : Z + string :=
  match word with
  | String c EmptyString =>
      let n := nat_of_ascii c in
      if ((48 <=? n) && (n <=? 57))%nat then inl (Z.of_nat (n - 48))
      else inr ("invalid literal for int() with base 10: '" +:+ word +:+ "'")
  | _ => inr ("invalid literal for int() with base 10: '" +:+ word +:+ "'")
  end.

(** ** Vocabulary of the further statements *)

(** The keys of the media and users tables obey their constraints. *)
Definition unique_titles (d : database) : Prop := NoDup (map m_title (media d)).
Definition unique_media_ids (d : database) : Prop := NoDup (map m_id (media d)).
Definition unique_usernames (d : database) : Prop :=
  NoDup (map u_username (users d)).
Definition unique_user_ids (d : database) : Prop := NoDup (map u_id (users d)).

(** The kinds the factory's table holds. *)
Definition registered (media_type : string) : Prop :=
  media_type = "Movie"%string \/ media_type = "WebShow"%string \/
  media_type = "Song"%string.

(** The line [search_media] prints for a row, the line [list_users] prints
    for a user. *)
Definition search_line (row : media_row) : string :=
  "ID: " +:+ pretty (m_id row) +:+ ", Title: " +:+ m_title row +:+
  ", Type: " +:+ m_type row.

Definition user_line (user : user_row) : string :=
  "ID: " +:+ pretty (u_id user) +:+ ", Username: " +:+ u_username user.

(** Texts equal up to the case of ASCII letters, a text that contains
    another one up to that case, a text without the two wildcards. *)
Fixpoint lower (s : string) : string :=
  match s with
  | EmptyString => EmptyString
  | String c s' => String (tolower c) (lower s')
  end.

Definition contains_nocase (text term : string) : Prop :=
  exists before found after,
    text = before +:+ found +:+ after /\ lower found = lower term.

Fixpoint wildcard_free (s : string) : bool :=
  match s with
  | EmptyString => true
  | String c s' =>
      negb (Ascii.eqb c "%"%char) && negb (Ascii.eqb c "_"%char) &&
      wildcard_free s'
  end.

(** User [B] has the pair with media [M] in the favorites table. *)
Definition has_favorited (d : database) (B M : Z) : bool :=
  existsb (same_pair {| f_user_id := B; f_media_id := M |}) (favorites d).

(** A text made of the wildcard [%] only. *)
Fixpoint all_percent (s : string) : bool :=
  match s with
  | EmptyString => true
  | String c s' => Ascii.eqb c "%"%char && all_percent s'
  end.

(** * Properties *)

(** ** The model at work *)

Example alert_message_format :
  alert_message 12 (-3) = "User 12 added a review for media ID -3."%string.
Proof. reflexivity. Qed.

Example AVG_of_two : AVG [4; 5] = Some 4.5%float.
Proof. reflexivity. Qed.

Example list_media_all_on_sample :
  list_media plain_table All sample_world =
    (Ok tt,
     {| w_db := sample_db;
        w_cache := {| reachable := true;
                      entries := {[ "media_list"%string :=
                                      ("Movie: Heat|WebShow: Dark"%string, 60) ]} |};
        w_trace :=
          [CacheGet "media_list"; Print "Fetching from database...";
           Execute (SelectCatalog None); Print "Movie: Heat|WebShow: Dark";
           CacheSet "media_list" "Movie: Heat|WebShow: Dark" 60] |}).
Proof. reflexivity. Qed.

(** With enforcement on, the favorite of user 1 blocks the deletion and
    [remove_user] would print the error. *)
Example delete_user_enforced_on_owner :
  fst (delete_user true 1 owner_world) =
    Raise (IntegrityError "FOREIGN KEY constraint failed") /\
  w_db (snd (delete_user true 1 owner_world)) = owner_db.
Proof. split; reflexivity. Qed.

(** ** Index scans *)

Lemma index_insert_perm {A} (leb : A -> A -> bool) (x : A) (l : list A) :
  Permutation (index_insert leb x l) (x :: l).
Proof.
  induction l as [|y l IH]; [reflexivity|].
  cbn [index_insert]. destruct (leb x y); [reflexivity|].
  rewrite IH. apply perm_swap.
Qed.

(** A scan returns every row of the table, each as often as the table has
    it. *)
Lemma index_scan_perm {A} (leb : A -> A -> bool) (rows : list A) :
  Permutation (index_scan leb rows) rows.
Proof.
  induction rows as [|x rows IH]; [reflexivity|].
  cbn [index_scan fold_right]. fold (index_scan leb rows).
  rewrite index_insert_perm. now apply perm_skip.
Qed.

Lemma index_scan_In {A} (leb : A -> A -> bool) (rows : list A) (x : A) :
  In x (index_scan leb rows) <-> In x rows.
Proof.
  split; apply Permutation_in;
    [|apply Permutation_sym]; apply index_scan_perm.
Qed.

Lemma index_scan_NoDup {A} (leb : A -> A -> bool) (rows : list A) :
  NoDup rows -> NoDup (index_scan leb rows).
Proof. intros H. now rewrite index_scan_perm. Qed.

Lemma index_insert_sorted {A} (leb : A -> A -> bool) (x : A) (l : list A) :
  (forall a b, leb a b = true \/ leb b a = true) ->
  Sorted (fun a b => leb a b = true) l ->
  Sorted (fun a b => leb a b = true) (index_insert leb x l).
Proof.
  intros Htotal. induction 1 as [|y l Hl IH Hhd].
  - repeat constructor.
  - cbn [index_insert]. destruct (leb x y) eqn:E.
    + constructor; [now constructor|]. now constructor.
    + constructor; [exact IH|].
      assert (Hyx : leb y x = true)
        by (destruct (Htotal x y) as [H|H]; [congruence|exact H]).
      destruct Hhd as [|z l Hyz]; cbn [index_insert].
      * now constructor.
      * destruct (leb x z); now constructor.
Qed.

(** For a total comparison, a scan returns the rows in ascending order of
    their keys. *)
Lemma index_scan_sorted {A} (leb : A -> A -> bool) (rows : list A) :
  (forall a b, leb a b = true \/ leb b a = true) ->
  Sorted (fun a b => leb a b = true) (index_scan leb rows).
Proof.
  intros Htotal. induction rows as [|x rows IH]; [constructor|].
  cbn [index_scan fold_right]. fold (index_scan leb rows).
  now apply index_insert_sorted.
Qed.

(** The users who have favorited a media item come from the index: user 1,
    whose favorite was added last, is returned first. *)
Example favorite_users_by_user_id :
  fst (select_favorite_users 1
         {| w_db := with_favorites sample_db
                      [{| f_user_id := 2; f_media_id := 1 |};
                       {| f_user_id := 3; f_media_id := 2 |};
                       {| f_user_id := 1; f_media_id := 1 |}];
            w_cache := {| reachable := true; entries := ∅ |};
            w_trace := [] |}) = Ok [1; 2].
Proof. reflexivity. Qed.

(** ** Media taxonomy: [MediaFactory.create_media] *)

Lemma media_classes_lookup (k : string) :
  MediaFactory.media_classes !! k =
    if decide (k = "Movie"%string) then Some Movie
    else if decide (k = "WebShow"%string) then Some WebShow
    else if decide (k = "Song"%string) then Some Song
    else None.
Proof.
  unfold MediaFactory.media_classes.
  repeat case_decide; subst; try reflexivity.
  rewrite !lookup_insert_ne by congruence.
  apply lookup_empty.
Qed.

(** The three kinds the factory's table holds are built and render
    ["{Kind}: {title}"]. *)
Lemma create_media_registered (t k : string) (w : world) :
  k = "Movie"%string \/ k = "WebShow"%string \/ k = "Song"%string ->
  exists obj,
    MediaFactory.create_media t k w = (Ok obj, w) /\
    type obj = k /\ title obj = t /\
    get_details obj = Some (k +:+ ": " +:+ t).
Proof.
  intros [-> | [-> | ->]]; eexists; repeat split; reflexivity.
Qed.

(** Every other kind string takes the generic branch, which logs the
    warning and then fails to instantiate the abstract class. *)
Lemma create_media_unregistered (t k : string) (w : world) :
  k <> "Movie"%string -> k <> "WebShow"%string -> k <> "Song"%string ->
  MediaFactory.create_media t k w =
    (Raise TypeError,
     {| w_db := w_db w; w_cache := w_cache w;
        w_trace := w_trace w ++
          [LogWarning ("Unknown media type '" +:+ k +:+ "' for title '" +:+
                       t +:+ "'. Defaulting to generic media.")] |}).
Proof.
  intros H1 H2 H3. unfold MediaFactory.create_media.
  rewrite media_classes_lookup.
  repeat case_decide; try contradiction.
  reflexivity.
Qed.

(** C1 (defect in the code): the specification has [create_media] return
    an object for every kind and render ["Cartoon: {title}"] for the kind
    "Cartoon".  On the title "Tom and Jerry" and the kind "Cartoon" the
    factory, whose table lacks "Cartoon", logs the unknown-type warning and
    raises [TypeError] from instantiating the abstract class [Media]; no
    object is returned. *)
Theorem create_media_Cartoon_raises :
  MediaFactory.create_media "Tom and Jerry" "Cartoon" world0 =
    (Raise TypeError,
     {| w_db := empty_db;
        w_cache := {| reachable := true; entries := ∅ |};
        w_trace :=
          [LogWarning "Unknown media type 'Cartoon' for title 'Tom and Jerry'. Defaulting to generic media."] |}).
Proof. reflexivity. Qed.

(** ** Review ingestion: [add_review] *)

Lemma alert_loop (user_id media_id : Z) (favorite_users : list Z) (w : world) :
  exists tr,
    for_each favorite_users
      (fun fav_user_id =>
         if negb (fav_user_id =? user_id)
         then insert_alert {| a_user_id := fav_user_id;
                              a_alert := alert_message user_id media_id |}
         else ret tt) w =
    (Ok tt,
     {| w_db := with_alerts (w_db w)
                  (alerts (w_db w) ++
                   map (alert_to user_id media_id)
                     (List.filter (fun u => negb (u =? user_id)) favorite_users));
        w_cache := w_cache w;
        w_trace := w_trace w ++ tr |}).
Proof.
  set (body := fun fav_user_id : Z => _).
  revert w. induction favorite_users as [|u us IH]; intros w.
  - exists []. simpl. unfold ret, with_alerts.
    rewrite !app_nil_r. destruct w as [[] c t]; reflexivity.
  - cbn [for_each]. unfold bind at 1. unfold body at 1.
    cbn [List.filter]. destruct (negb (u =? user_id)) eqn:E.
    + unfold insert_alert, execute, emit, bind, read_db, write_db.
      cbn [w_db w_cache w_trace].
      match goal with |- context [for_each us body ?w1] =>
        destruct (IH w1) as [tr Htr]; rewrite Htr end.
      eexists. unfold with_alerts. cbn.
      rewrite <- !app_assoc. reflexivity.
    + unfold ret at 1.
      destruct (IH w) as [tr Htr]. rewrite Htr.
      exists tr. reflexivity.
Qed.

Lemma review_task_effect (user_id : Z) (item : review_item) (w : world) :
  exists tr,
    review_task user_id item w =
      (Ok tt,
       {| w_db := after_tasks (w_db w) user_id [item];
          w_cache := w_cache w;
          w_trace := w_trace w ++ tr |}).
Proof.
  destruct item as [[media_id rating] comment].
  unfold review_task.
  set (body := fun fav_user_id : Z => if negb (fav_user_id =? user_id) then _ else _).
  unfold insert_review, select_favorite_users, execute, emit, read_db,
    write_db, bind, ret.
  cbn [w_db w_cache w_trace].
  match goal with |- context [for_each ?l body ?w1] =>
    destruct (alert_loop user_id media_id l w1) as [tr Htr];
    fold body in Htr; rewrite Htr end.
  unfold print, emit. cbn [w_db w_cache w_trace].
  eexists. unfold after_tasks, batch_alerts, item_alerts, recipients,
    with_alerts, with_reviews.
  cbn. rewrite app_nil_r, <- !app_assoc. reflexivity.
Qed.

Lemma after_tasks_nil (d : database) (user_id : Z) :
  after_tasks d user_id [] = d.
Proof.
  unfold after_tasks, batch_alerts. cbn. rewrite !app_nil_r.
  destruct d; reflexivity.
Qed.

Lemma after_tasks_cons (d : database) (user_id : Z) (item : review_item)
    (items : list review_item) :
  after_tasks (after_tasks d user_id [item]) user_id items =
  after_tasks d user_id (item :: items).
Proof.
  unfold after_tasks, batch_alerts, item_alerts, recipients. cbn.
  rewrite app_nil_r, <- !app_assoc. reflexivity.
Qed.

(** The threads of a batch, run in the order [schedule]. *)
Lemma tasks_effect (user_id : Z) (schedule : list review_item) (w : world) :
  exists tr,
    for_each schedule (fun item => thread (review_task user_id item)) w =
      (Ok tt,
       {| w_db := after_tasks (w_db w) user_id schedule;
          w_cache := w_cache w;
          w_trace := w_trace w ++ tr |}).
Proof.
  revert w. induction schedule as [|item items IH]; intros w.
  - exists []. cbn. unfold ret. rewrite after_tasks_nil, app_nil_r.
    destruct w; reflexivity.
  - cbn [for_each]. unfold bind. unfold thread at 1.
    destruct (review_task_effect user_id item w) as [tr1 H1]. rewrite H1.
    cbn [snd].
    match goal with |- context [for_each items _ ?w1] =>
      destruct (IH w1) as [tr2 H2]; rewrite H2 end.
    cbn [w_db w_cache w_trace].
    exists (tr1 ++ tr2). rewrite after_tasks_cons, <- app_assoc. reflexivity.
Qed.

Lemma thread_starts (items : list review_item) (w : world) :
  for_each items (fun item => emit (ThreadStart item)) w =
    (Ok tt,
     {| w_db := w_db w; w_cache := w_cache w;
        w_trace := w_trace w ++ map ThreadStart items |}).
Proof.
  revert w. induction items as [|item items IH]; intros w.
  - cbn. unfold ret. rewrite app_nil_r. destruct w; reflexivity.
  - cbn [for_each]. unfold bind, emit at 1. rewrite IH.
    cbn. rewrite <- app_assoc. reflexivity.
Qed.

Lemma fetchone_known_user (user_id : Z) (us : list user_row) :
  In user_id (map u_id us) ->
  head (List.filter (fun i => i =? user_id) (map u_id us)) = Some user_id.
Proof.
  induction us as [|u us IH]; intros Hin; [destruct Hin|].
  cbn [map List.filter]. destruct (Z.eqb_spec (u_id u) user_id) as [->|Hne].
  - reflexivity.
  - apply IH. destruct Hin as [Heq|Hin]; [contradiction|exact Hin].
Qed.

Lemma fetchone_unknown_user (user_id : Z) (us : list user_row) :
  ~ In user_id (map u_id us) ->
  head (List.filter (fun i => i =? user_id) (map u_id us)) = None.
Proof.
  induction us as [|u us IH]; intros Hnot; [reflexivity|].
  cbn [map List.filter]. destruct (Z.eqb_spec (u_id u) user_id) as [Heq|Hne].
  - exfalso. apply Hnot. left. exact Heq.
  - apply IH. intros Hin. apply Hnot. right. exact Hin.
Qed.

Lemma select_known_user (user_id : Z) (w : world) :
  In user_id (map u_id (users (w_db w))) ->
  select_user_by_id user_id w =
    (Ok (Some user_id), after_events w [Execute (SelectUserById user_id)]).
Proof.
  intros Hin. unfold select_user_by_id, execute, emit, read_db, bind, ret.
  cbn [w_db w_cache w_trace]. now rewrite (fetchone_known_user _ _ Hin).
Qed.

Lemma select_unknown_user (user_id : Z) (w : world) :
  ~ In user_id (map u_id (users (w_db w))) ->
  select_user_by_id user_id w =
    (Ok None, after_events w [Execute (SelectUserById user_id)]).
Proof.
  intros Hnot. unfold select_user_by_id, execute, emit, read_db, bind, ret.
  cbn [w_db w_cache w_trace]. now rewrite (fetchone_unknown_user _ _ Hnot).
Qed.

(** With a known user, [add_review] starts one thread per item and the
    store ends as the threads' transactions leave it. *)
Lemma add_review_known_user (schedule reviews : list review_item)
    (user_id : Z) (w : world) :
  In user_id (map u_id (users (w_db w))) ->
  exists tr,
    add_review schedule user_id reviews w =
      (Ok tt,
       {| w_db := after_tasks (w_db w) user_id schedule;
          w_cache := w_cache w;
          w_trace := w_trace w ++ tr |}).
Proof.
  intros Hin. unfold add_review. unfold bind at 1.
  rewrite (select_known_user user_id w Hin).
  unfold bind. rewrite thread_starts.
  match goal with |- context [for_each schedule _ ?w1] =>
    destruct (tasks_effect user_id schedule w1) as [tr Htr]; rewrite Htr end.
  cbn [w_db w_cache w_trace after_events].
  eexists. rewrite <- !app_assoc. reflexivity.
Qed.

(** No check stands between the rating of an item and the reviews table:
    whatever the rating, the row is written. *)
Lemma add_review_writes_any_rating (user_id media_id rating : Z)
    (comment : string) (w : world) :
  In user_id (map u_id (users (w_db w))) ->
  reviews (w_db (snd (add_review [(media_id, rating, comment)] user_id
                        [(media_id, rating, comment)] w))) =
  reviews (w_db w) ++
    [{| r_user_id := user_id; r_media_id := media_id;
        r_rating := rating; r_comment := comment |}].
Proof.
  intros Hin.
  destruct (add_review_known_user [(media_id, rating, comment)]
              [(media_id, rating, comment)] user_id w Hin) as [tr ->].
  reflexivity.
Qed.

(** C2 (defect in the code): the specification has an item whose rating
    lies outside 1..5 rejected before any write.  User 1 exists and submits
    the one-item batch [(1, 7, "x")]: the call returns normally and the
    reviews table, empty before, holds the row with rating 7. *)
Theorem add_review_rating_7_is_written :
  add_review [(1, 7, "x"%string)] 1 [(1, 7, "x"%string)] sample_world =
    (Ok tt,
     {| w_db :=
          {| users := [alice; bob]; media := [heat; dark];
             reviews := [{| r_user_id := 1; r_media_id := 1; r_rating := 7;
                            r_comment := "x" |}];
             alerts := [{| a_user_id := 2;
                           a_alert := "User 1 added a review for media ID 1." |}];
             favorites := [{| f_user_id := 2; f_media_id := 1 |}] |};
        w_cache := {| reachable := true; entries := ∅ |};
        w_trace :=
          [Execute (SelectUserById 1);
           ThreadStart (1, 7, "x"%string);
           Execute (InsertReview {| r_user_id := 1; r_media_id := 1;
                                    r_rating := 7; r_comment := "x" |});
           Execute (SelectFavoriteUsers 1);
           Execute (InsertAlert
                      {| a_user_id := 2;
                         a_alert := "User 1 added a review for media ID 1." |});
           Print "Review submitted for Media ID 1!"] |}).
Proof. reflexivity. Qed.

(** C6: when [user_id] is the id of no row of the users table, [add_review]
    executes the user lookup, prints the invalid-user message and returns:
    no thread is started, no statement other than the lookup is executed,
    and the store, with its reviews and alerts tables, is as before,
    whatever the batch and whatever order its threads would have run in. *)
Theorem add_review_invalid_user (schedule reviews : list review_item)
    (user_id : Z) (w : world) :
  ~ In user_id (map u_id (users (w_db w))) ->
  add_review schedule user_id reviews w =
    (Ok tt,
     {| w_db := w_db w;
        w_cache := w_cache w;
        w_trace := w_trace w ++
          [Execute (SelectUserById user_id);
           Print "Invalid user ID. Review submission failed."] |}).
Proof.
  intros Hnot. unfold add_review. unfold bind at 1.
  rewrite (select_unknown_user user_id w Hnot).
  unfold print, emit, after_events. cbn [w_db w_cache w_trace].
  rewrite <- app_assoc. reflexivity.
Qed.

Lemma add_review_invalid_user_witness :
  ~ In 9 (map u_id (users (w_db sample_world))) /\
  add_review [(1, 5, "Great movie!"%string); (2, 3, "ok"%string)] 9
    [(2, 3, "ok"%string); (1, 5, "Great movie!"%string)] sample_world =
    (Ok tt,
     {| w_db := sample_db;
        w_cache := {| reachable := true; entries := ∅ |};
        w_trace :=
          [Execute (SelectUserById 9);
           Print "Invalid user ID. Review submission failed."] |}).
Proof.
  assert (H : ~ In 9 (map u_id (users (w_db sample_world)))).
  { cbn. intros [H | [H | []]]; discriminate H. }
  split; [exact H|].
  exact (add_review_invalid_user _ _ 9 sample_world H).
Defined.

(** ** Alerts derived by [review_task] *)

Lemma alerts_of_alert_to (A M B : Z) (l : list Z) :
  alerts_of B (map (alert_to A M) l) =
  map (alert_to A M) (List.filter (fun u => u =? B) l).
Proof.
  induction l as [|u l IH]; [reflexivity|].
  cbn. destruct (u =? B); cbn; now rewrite <- IH.
Qed.


Lemma recipients_absent (fs : list favorite_row) (A M B : Z) :
  ~ In {| f_user_id := B; f_media_id := M |} fs ->
  List.filter (fun u => u =? B)
    (List.filter (fun u => negb (u =? A))
       (map f_user_id (List.filter (fun f => f_media_id f =? M) fs))) = [].
Proof.
  induction fs as [|[u m] fs IH]; intros Hnot; [reflexivity|].
  assert (Hrest : ~ In {| f_user_id := B; f_media_id := M |} fs)
    by (intros H; apply Hnot; now right).
  cbn. destruct (Z.eqb_spec m M) as [->|Hm]; [|now apply IH].
  cbn. destruct (negb (u =? A)); [|now apply IH].
  cbn. destruct (Z.eqb_spec u B) as [->|Hu]; [|now apply IH].
  exfalso. apply Hnot. now left.
Qed.

Lemma recipients_once (fs : list favorite_row) (A M B : Z) :
  NoDup fs -> B <> A ->
  In {| f_user_id := B; f_media_id := M |} fs ->
  length
    (List.filter (fun u => u =? B)
       (List.filter (fun u => negb (u =? A))
          (map f_user_id (List.filter (fun f => f_media_id f =? M) fs))))
  = 1%nat.
Proof.
  intros Hnd Hne. induction Hnd as [|f fs Hfresh Hnd IH]; intros Hin;
    [destruct Hin|].
  rewrite list_elem_of_In in Hfresh.
  destruct Hin as [->|Hin].
  - cbn. rewrite Z.eqb_refl. cbn.
    apply Z.eqb_neq in Hne. rewrite Hne. cbn. rewrite Z.eqb_refl. cbn.
    now rewrite (recipients_absent fs A M B Hfresh).
  - destruct f as [u m]. cbn.
    destruct (Z.eqb_spec m M) as [->|Hm]; [|now apply IH].
    cbn. destruct (negb (u =? A)); [|now apply IH].
    cbn. destruct (Z.eqb_spec u B) as [->|Hu]; [|now apply IH].
    contradiction.
Qed.


Lemma user_known_or_not (A : Z) (w : world) :
  In A (map u_id (users (w_db w))) \/ ~ In A (map u_id (users (w_db w))).
Proof.
  destruct (in_dec Z.eq_dec A (map u_id (users (w_db w)))); [left|right];
    assumption.
Qed.




(** ** Favorites: [add_favorite] *)

Lemma same_pair_spec (a b : favorite_row) : same_pair a b = true <-> a = b.
Proof.
  destruct a as [u m], b as [u' m']. unfold same_pair. cbn.
  rewrite andb_true_iff, !Z.eqb_eq. split.
  - intros [-> ->]. reflexivity.
  - intros H. inversion H. split; reflexivity.
Qed.

Lemma conflict_iff (row : favorite_row) (fs : list favorite_row) :
  existsb (same_pair row) fs = true <-> In row fs.
Proof.
  rewrite existsb_exists. split.
  - intros (x & Hx & Heq). apply same_pair_spec in Heq. now subst.
  - intros Hin. exists row. split; [exact Hin|]. now apply same_pair_spec.
Qed.

Lemma pair_absent (row : favorite_row) (fs : list favorite_row) :
  ~ In row fs -> List.filter (same_pair row) fs = [].
Proof.
  induction fs as [|f fs IH]; intros Hnot; [reflexivity|].
  cbn. destruct (same_pair row f) eqn:E.
  - apply same_pair_spec in E. subst. exfalso. apply Hnot. now left.
  - apply IH. intros H. apply Hnot. now right.
Qed.

Lemma pair_once (row : favorite_row) (fs : list favorite_row) :
  NoDup fs -> In row fs -> length (List.filter (same_pair row) fs) = 1%nat.
Proof.
  induction 1 as [|f fs Hfresh Hnd IH]; intros Hin; [destruct Hin|].
  rewrite list_elem_of_In in Hfresh.
  cbn. destruct (same_pair row f) eqn:E.
  - apply same_pair_spec in E. subst f.
    cbn. now rewrite pair_absent.
  - apply IH. destruct Hin as [->|Hin]; [|exact Hin].
    assert (same_pair row row = true) by now apply same_pair_spec.
    congruence.
Qed.

(** What one call does: the row is appended unless the pair is there. *)
Lemma add_favorite_effect (user_id media_id : Z) (w : world) :
  let row := {| f_user_id := user_id; f_media_id := media_id |} in
  add_favorite user_id media_id w =
    (Ok tt,
     {| w_db := if existsb (same_pair row) (favorites (w_db w)) then w_db w
                else with_favorites (w_db w) (favorites (w_db w) ++ [row]);
        w_cache := w_cache w;
        w_trace := w_trace w ++
          [Execute (InsertFavorite row);
           Print ("Media ID " +:+ pretty media_id +:+
                  " added to favorites for User ID " +:+ pretty user_id +:+
                  "!")] |}).
Proof.
  intros row. unfold add_favorite, insert_favorite, execute, print, emit,
    read_db, write_db, bind, ret.
  cbn [w_db w_cache w_trace]. fold row.
  destruct (existsb (same_pair row) (favorites (w_db w)));
    cbn [w_db w_cache w_trace]; rewrite <- app_assoc; reflexivity.
Qed.

Lemma add_favorite_keeps_unique (user_id media_id : Z) (w : world) :
  unique_favorites (w_db w) ->
  unique_favorites (w_db (snd (add_favorite user_id media_id w))).
Proof.
  intros Huniq. rewrite add_favorite_effect. cbn [snd w_db].
  destruct (existsb _ (favorites (w_db w))) eqn:E; [exact Huniq|].
  unfold unique_favorites in *. cbn [favorites with_favorites].
  apply NoDup_app. split; [exact Huniq|]. split; [|apply NoDup_singleton].
  intros x Hx Hx'. apply list_elem_of_In in Hx.
  apply list_elem_of_In in Hx'. destruct Hx' as [<-|[]].
  apply conflict_iff in Hx. congruence.
Qed.

(** C9: on a favorites table that obeys its uniqueness constraint, two calls
    of [add_favorite] with the same pair both return normally, the second
    leaves the store as the first left it, and the table then holds exactly
    one row with that pair and still obeys the constraint. *)
Theorem add_favorite_twice (user_id media_id : Z) (w : world) :
  unique_favorites (w_db w) ->
  let row := {| f_user_id := user_id; f_media_id := media_id |} in
  let w1 := snd (add_favorite user_id media_id w) in
  let w2 := snd (add_favorite user_id media_id w1) in
  fst (add_favorite user_id media_id w) = Ok tt /\
  fst (add_favorite user_id media_id w1) = Ok tt /\
  w_db w2 = w_db w1 /\
  length (List.filter (same_pair row) (favorites (w_db w2))) = 1%nat /\
  unique_favorites (w_db w2).
Proof.
  intros Huniq row w1 w2.
  assert (Huniq1 : unique_favorites (w_db w1))
    by now apply add_favorite_keeps_unique.
  assert (Hin1 : In row (favorites (w_db w1))).
  { subst w1. rewrite add_favorite_effect. cbn [snd w_db]. fold row.
    destruct (existsb (same_pair row) (favorites (w_db w))) eqn:E.
    - now apply conflict_iff.
    - cbn. apply in_or_app. right. now left. }
  assert (Hsame : w_db w2 = w_db w1).
  { subst w2. rewrite add_favorite_effect. cbn [snd w_db]. fold row.
    apply conflict_iff in Hin1. now rewrite Hin1. }
  split; [subst w1; now rewrite add_favorite_effect|].
  split; [now rewrite add_favorite_effect|].
  split; [exact Hsame|]. rewrite Hsame.
  split; [now apply pair_once | exact Huniq1].
Qed.

Lemma add_favorite_twice_witness :
  unique_favorites (w_db world0) /\
  length
    (List.filter (same_pair {| f_user_id := 1; f_media_id := 1 |})
       (favorites
          (w_db (snd (add_favorite 1 1 (snd (add_favorite 1 1 world0)))))))
  = 1%nat.
Proof.
  assert (H : unique_favorites (w_db world0)) by apply NoDup_nil_2.
  split; [exact H|].
  exact (proj1 (proj2 (proj2 (proj2 (add_favorite_twice 1 1 world0 H))))).
Defined.

(** ** Catalog listing: [list_media] *)

Lemma after_no_events (w : world) : after_events w [] = w.
Proof. unfold after_events. rewrite app_nil_r. destruct w; reflexivity. Qed.

Lemma after_after (w : world) (tr1 tr2 : list event) :
  after_events (after_events w tr1) tr2 = after_events w (tr1 ++ tr2).
Proof. unfold after_events. cbn. rewrite <- app_assoc. reflexivity. Qed.

(** The factory reads neither the store nor the cache: its result and the
    events it adds are the same in every world. *)
Lemma create_media_uniform (t k : string) :
  exists res tr,
    cache_events tr = [] /\
    forall w, MediaFactory.create_media t k w = (res, after_events w tr).
Proof.
  unfold MediaFactory.create_media.
  destruct (MediaFactory.media_classes !! k) as [c|].
  - unfold new. destruct (abstractmethods c).
    + eexists _, []. split; [reflexivity|]. intros w.
      unfold ret. now rewrite after_no_events.
    + eexists _, []. split; [reflexivity|]. intros w.
      unfold raise. now rewrite after_no_events.
  - eexists _, [LogWarning _]. split; [reflexivity|]. intros w. reflexivity.
Qed.

Lemma table_data_uniform (results : list catalog_row) :
  exists res tr,
    cache_events tr = [] /\
    forall w, table_data results w = (res, after_events w tr).
Proof.
  unfold table_data. set (f := fun row : catalog_row => _).
  induction results as [|[[[id t] k] avg] results (res & tr & Hc & IH)].
  - eexists _, []. split; [reflexivity|]. intros w. cbn.
    unfold ret. now rewrite after_no_events.
  - destruct (create_media_uniform t k) as (r1 & tr1 & Hc1 & H1).
    cbn [comprehension]. unfold bind at 1. unfold f at 1. unfold bind at 1.
    destruct r1 as [obj|e].
    + unfold bind at 1. destruct res as [rows|e].
      * eexists _, (tr1 ++ tr). split.
        { unfold cache_events in *. now rewrite List.filter_app, Hc1, Hc. }
        intros w. rewrite H1. unfold ret at 1. rewrite IH.
        unfold ret. now rewrite after_after.
      * eexists _, (tr1 ++ tr). split.
        { unfold cache_events in *. now rewrite List.filter_app, Hc1, Hc. }
        intros w. rewrite H1. unfold ret at 1. rewrite IH.
        now rewrite after_after.
    + eexists _, tr1. split; [exact Hc1|]. intros w. now rewrite H1.
Qed.

(** The rows of [table_data] carry the id and the average of the rows of
    the query, position by position. *)
Lemma table_data_columns (results : list catalog_row) (w w' : world)
    (rows : list table_row) :
  table_data results w = (Ok rows, w') ->
  map (fun row : table_row => (fst (fst row), snd row)) rows =
  map (fun r : catalog_row => (fst (fst (fst r)), snd r)) results.
Proof.
  unfold table_data. set (f := fun row : catalog_row => _).
  revert w w' rows.
  induction results as [|[[[id t] k] avg] results IH]; intros w w' rows.
  - cbn. unfold ret. intros H. inversion H. reflexivity.
  - cbn [comprehension]. unfold bind at 1. unfold f at 1. unfold bind at 1.
    destruct (MediaFactory.create_media t k w) as [[obj|e] w1]; [|discriminate].
    unfold ret at 1. unfold bind at 1.
    destruct (comprehension f results w1) as [[rows'|e] w2] eqn:E;
      [|discriminate].
    unfold ret. intros H. inversion H. subst. cbn.
    f_equal. eapply IH. exact E.
Qed.

Lemma cache_set_run (key value : string) (ex : Z) (w : world) :
  cache.set key value ex w =
    if reachable (w_cache w)
    then (Ok tt,
          {| w_db := w_db w;
             w_cache := {| reachable := true;
                           entries := <[key := (value, ex)]>
                                        (entries (w_cache w)) |};
             w_trace := w_trace w ++ [CacheSet key value ex] |})
    else (Raise ConnectionError, after_events w [CacheSet key value ex]).
Proof.
  unfold cache.set, emit, read_cache, write_cache, bind, raise.
  cbn [w_db w_cache w_trace].
  destruct (reachable (w_cache w)); reflexivity.
Qed.

Section ListingProperties.

Variable tabulate : list table_row -> string.

Lemma list_media_unreachable (limit : limit) (w : world) :
  reachable (w_cache w) = false ->
  list_media tabulate limit w =
    (Raise ConnectionError, after_events w [CacheGet "media_list"]).
Proof.
  intros Hdown. unfold list_media, cache.get, emit, read_cache, bind, raise.
  cbn [w_db w_cache w_trace]. rewrite Hdown. reflexivity.
Qed.

Lemma list_media_hit (w : world) (text : string) (ex : Z) :
  reachable (w_cache w) = true ->
  entries (w_cache w) !! "media_list"%string = Some (text, ex) ->
  truthy text = true ->
  list_media tabulate All w =
    (Ok tt,
     after_events w
       [CacheGet "media_list"; Print "Fetching from cache..."; Print text]).
Proof.
  intros Hup Hentry Htext.
  unfold list_media, cache.get, emit, read_cache, bind, ret.
  cbn [w_db w_cache w_trace]. rewrite Hup, Hentry. cbn [fmap option_fmap option_map fst].
  rewrite Htext. unfold print, emit, after_events. cbn [w_db w_cache w_trace].
  rewrite <- !app_assoc. reflexivity.
Qed.

Lemma list_media_miss (limit : limit) (w : world) :
  reachable (w_cache w) = true ->
  serves_from_cache limit (w_cache w) = false ->
  list_media tabulate limit w =
    fetch_from_database tabulate limit
      (after_events w [CacheGet "media_list"]).
Proof.
  intros Hup Hmiss.
  unfold list_media, cache.get, emit, read_cache, bind, ret.
  cbn [w_db w_cache w_trace]. rewrite Hup.
  unfold serves_from_cache in Hmiss.
  destruct (entries (w_cache w) !! "media_list"%string) as [[text ex]|];
    cbn [fmap option_fmap option_map fst]; destruct limit; try reflexivity.
  rewrite Hmiss. reflexivity.
Qed.

Lemma fetch_select (limit : limit) (w : world) :
  match limit with
  | Count n => select_catalog (Some n)
  | All => select_catalog None
  end w =
  (Ok (catalog (w_db w) (bound limit)),
   after_events w [Execute (SelectCatalog (bound limit))]).
Proof. destruct limit; reflexivity. Qed.

Lemma fetch_empty (limit : limit) (w : world) :
  catalog (w_db w) (bound limit) = [] ->
  fetch_from_database tabulate limit w =
    (Ok tt,
     after_events w
       [Print "Fetching from database...";
        Execute (SelectCatalog (bound limit));
        Print "No media found. Please add media first!"]).
Proof.
  intros Hempty. unfold fetch_from_database.
  unfold bind at 1. unfold print at 1, emit at 1. unfold bind at 1.
  rewrite fetch_select. cbn [w_db w_cache w_trace]. rewrite Hempty.
  unfold print, emit, after_events. cbn [w_db w_cache w_trace].
  rewrite <- !app_assoc. reflexivity.
Qed.

Lemma fetch_rows (limit : limit) (w : world) :
  catalog (w_db w) (bound limit) <> [] ->
  exists res tr,
    cache_events tr = [] /\
    (forall v, table_data (catalog (w_db w) (bound limit)) v =
               (res, after_events v tr)) /\
    fetch_from_database tabulate limit w =
      match res with
      | Raise e =>
          (Raise e,
           after_events w
             ([Print "Fetching from database...";
               Execute (SelectCatalog (bound limit))] ++ tr))
      | Ok rows =>
          cache.set "media_list" (tabulate rows) 60
            (after_events w
               ([Print "Fetching from database...";
                 Execute (SelectCatalog (bound limit))] ++ tr ++
                [Print (tabulate rows)]))
      end.
Proof.
  intros Hrows.
  destruct (table_data_uniform (catalog (w_db w) (bound limit)))
    as (res & tr & Hc & Hrun).
  exists res, tr. split; [exact Hc|]. split; [exact Hrun|].
  unfold fetch_from_database.
  unfold bind at 1. unfold print at 1, emit at 1. unfold bind at 1.
  rewrite fetch_select. cbn [w_db w_cache w_trace].
  destruct (catalog (w_db w) (bound limit)) as [|r rs] eqn:E;
    [contradiction|].
  unfold bind at 1. rewrite Hrun.
  destruct res as [rows|e].
  - unfold bind at 1, print, emit. cbn [w_db w_cache w_trace].
    unfold after_events. cbn [w_db w_cache w_trace].
    rewrite <- !app_assoc. reflexivity.
  - unfold after_events. cbn [w_db w_cache w_trace].
    rewrite <- !app_assoc. reflexivity.
Qed.

(** What a run of the database path shows, given the store and whether the
    cache answers: the cache contents play no part. *)
Lemma fetch_observable (limit : limit) (d : database) (up : bool) :
  exists res tr,
    In (Execute (SelectCatalog (bound limit))) tr /\
    (forall e, In e (cache_events tr) ->
       exists value, e = CacheSet "media_list" value 60) /\
    (catalog d (bound limit) = [] -> cache_events tr = []) /\
    forall v, w_db v = d -> reachable (w_cache v) = up ->
      fst (fetch_from_database tabulate limit v) = res /\
      w_db (snd (fetch_from_database tabulate limit v)) = d /\
      w_trace (snd (fetch_from_database tabulate limit v)) = w_trace v ++ tr.
Proof.
  destruct (catalog d (bound limit)) as [|r rs] eqn:E.
  - eexists _, _. split; [|split; [|split]]; cycle 3.
    + intros v <- _. rewrite (fetch_empty limit v E).
      cbn. repeat split; reflexivity.
    + right. left. reflexivity.
    + cbn. intros e [].
    + reflexivity.
  - destruct (table_data_uniform (catalog d (bound limit)))
      as (res0 & tr0 & Hc0 & Hrun0).
    assert (Hfetch : forall v, w_db v = d ->
              fetch_from_database tabulate limit v =
                match res0 with
                | Raise e =>
                    (Raise e,
                     after_events v
                       ([Print "Fetching from database...";
                         Execute (SelectCatalog (bound limit))] ++ tr0))
                | Ok rows =>
                    cache.set "media_list" (tabulate rows) 60
                      (after_events v
                         ([Print "Fetching from database...";
                           Execute (SelectCatalog (bound limit))] ++ tr0 ++
                          [Print (tabulate rows)]))
                end).
    { intros v <-.
      destruct (fetch_rows limit v) as (res & tr & _ & Hrun & Hf);
        [rewrite E; discriminate|].
      pose proof (Hrun world0) as H1. rewrite (Hrun0 world0) in H1.
      inversion H1. subst. exact Hf. }
    destruct res0 as [rows|e].
    + exists (if up then Ok tt else Raise ConnectionError),
        ([Print "Fetching from database...";
          Execute (SelectCatalog (bound limit))] ++ tr0 ++
         [Print (tabulate rows); CacheSet "media_list" (tabulate rows) 60]).
      split; [right; left; reflexivity|]. split; [|split].
      * unfold cache_events in *. cbn [app List.filter].
        rewrite List.filter_app, Hc0. cbn.
        intros e [<-|[]]. eexists. reflexivity.
      * discriminate.
      * intros v Hd Hup. rewrite (Hfetch v Hd), cache_set_run.
        cbn [after_events w_cache]. rewrite Hup.
        destruct up; cbn [fst snd w_db w_trace after_events];
          rewrite <- ?app_assoc; cbn [app]; rewrite <- ?app_assoc;
          repeat split; try reflexivity; exact Hd.
    + exists (Raise e),
        ([Print "Fetching from database...";
          Execute (SelectCatalog (bound limit))] ++ tr0).
      split; [right; left; reflexivity|]. split; [|split].
      * unfold cache_events in *. cbn [app List.filter]. rewrite Hc0.
        intros e' [].
      * discriminate.
      * intros v Hd _. rewrite (Hfetch v Hd).
        cbn. repeat split; try reflexivity; exact Hd.
Qed.

Lemma served_from_cache (limit : limit) (c : redis) :
  serves_from_cache limit c = true ->
  limit = All /\
  exists text ex,
    entries c !! "media_list"%string = Some (text, ex) /\ truthy text = true.
Proof.
  unfold serves_from_cache.
  destruct (entries c !! "media_list"%string) as [[text ex]|];
    [|discriminate].
  destruct limit; [|discriminate].
  intros H. split; [reflexivity|]. now exists text, ex.
Qed.

Lemma bounded_never_served (n : Z) (c : redis) :
  serves_from_cache (Count n) c = false.
Proof.
  unfold serves_from_cache.
  now destruct (entries c !! "media_list"%string) as [[text ex]|].
Qed.

(** The events of one call, whatever the limit: the cache operations among
    them are on the one key. *)
Lemma list_media_cache_key (limit : limit) (w : world) :
  exists tr,
    w_trace (snd (list_media tabulate limit w)) = w_trace w ++ tr /\
    (forall e, In e (cache_events tr) ->
       e = CacheGet "media_list" \/
       exists value, e = CacheSet "media_list" value 60) /\
    (catalog (w_db w) (bound limit) = [] ->
       cache_events tr = [CacheGet "media_list"]).
Proof.
  destruct (reachable (w_cache w)) eqn:Hup.
  - destruct (serves_from_cache limit (w_cache w)) eqn:Hserve.
    + apply served_from_cache in Hserve as (-> & text & ex & Hentry & Htext).
      rewrite (list_media_hit w text ex Hup Hentry Htext).
      eexists. split; [reflexivity|]. split; [|reflexivity].
      cbn. intros e [<-|[]]. now left.
    + rewrite (list_media_miss limit w Hup Hserve).
      destruct (fetch_observable limit (w_db w) true)
        as (res & tr & _ & Hkeys & Hempty & Hrun).
      destruct (Hrun (after_events w [CacheGet "media_list"]) eq_refl Hup)
        as (_ & _ & Htr).
      rewrite Htr. cbn [after_events w_trace]. rewrite <- app_assoc.
      eexists. split; [reflexivity|]. split.
      * cbn. intros e [<-|He]; [now left|]. right. now apply Hkeys.
      * intros Hnone.
        change (cache_events ([CacheGet "media_list"] ++ tr))
          with (CacheGet "media_list" :: cache_events tr).
        now rewrite (Hempty Hnone).
  - rewrite (list_media_unreachable limit w Hup).
    eexists. split; [reflexivity|]. split; [|reflexivity].
    cbn. intros e [<-|[]]. now left.
Qed.

(** Every call begins with the read of the key, whatever the limit. *)
Lemma list_media_reads_first (limit : limit) (w : world) :
  exists tr,
    w_trace (snd (list_media tabulate limit w)) =
      w_trace w ++ CacheGet "media_list" :: tr.
Proof.
  destruct (reachable (w_cache w)) eqn:Hup.
  - destruct (serves_from_cache limit (w_cache w)) eqn:Hserve.
    + apply served_from_cache in Hserve as (-> & text & ex & Hentry & Htext).
      rewrite (list_media_hit w text ex Hup Hentry Htext).
      eexists. reflexivity.
    + rewrite (list_media_miss limit w Hup Hserve).
      destruct (fetch_observable limit (w_db w) true)
        as (res & tr & _ & _ & _ & Hrun).
      destruct (Hrun (after_events w [CacheGet "media_list"]) eq_refl Hup)
        as (_ & _ & ->).
      cbn [after_events w_trace]. rewrite <- app_assoc.
      eexists. reflexivity.
  - rewrite (list_media_unreachable limit w Hup).
    eexists. reflexivity.
Qed.

(** A bounded call behaves the same whatever the cache holds. *)
Lemma list_media_bounded_ignores_cache (n : Z) (w1 w2 : world) :
  w_db w1 = w_db w2 -> w_trace w1 = w_trace w2 ->
  reachable (w_cache w1) = reachable (w_cache w2) ->
  fst (list_media tabulate (Count n) w1) =
    fst (list_media tabulate (Count n) w2) /\
  w_db (snd (list_media tabulate (Count n) w1)) =
    w_db (snd (list_media tabulate (Count n) w2)) /\
  w_trace (snd (list_media tabulate (Count n) w1)) =
    w_trace (snd (list_media tabulate (Count n) w2)).
Proof.
  intros Hdb Htr Hup.
  destruct (reachable (w_cache w2)) eqn:Hup2.
  - rewrite (list_media_miss (Count n) w1 Hup (bounded_never_served n _)).
    rewrite (list_media_miss (Count n) w2 Hup2 (bounded_never_served n _)).
    destruct (fetch_observable (Count n) (w_db w2) true)
      as (res & tr & _ & _ & _ & Hrun).
    destruct (Hrun (after_events w1 [CacheGet "media_list"]) Hdb Hup)
      as (-> & -> & ->).
    destruct (Hrun (after_events w2 [CacheGet "media_list"]) eq_refl Hup2)
      as (-> & -> & ->).
    cbn. rewrite Htr. repeat split; reflexivity.
  - rewrite (list_media_unreachable (Count n) w1 Hup).
    rewrite (list_media_unreachable (Count n) w2 Hup2).
    cbn. rewrite Hdb, Htr. repeat split; reflexivity.
Qed.

Lemma list_media_bounded_queries_store (n : Z) (w : world) :
  reachable (w_cache w) = true ->
  In (Execute (SelectCatalog (Some n)))
     (w_trace (snd (list_media tabulate (Count n) w))).
Proof.
  intros Hup.
  rewrite (list_media_miss (Count n) w Hup (bounded_never_served n _)).
  destruct (fetch_observable (Count n) (w_db w) true)
    as (res & tr & Hq & _ & _ & Hrun).
  destruct (Hrun (after_events w [CacheGet "media_list"]) eq_refl Hup)
    as (_ & _ & ->).
  apply in_or_app. right. exact Hq.
Qed.

(** An unbounded call that misses stores the listing it rendered. *)
Lemma list_media_all_stores (w v v' : world) (rows : list table_row) :
  reachable (w_cache w) = true ->
  serves_from_cache All (w_cache w) = false ->
  catalog (w_db w) None <> [] ->
  table_data (catalog (w_db w) None) v = (Ok rows, v') ->
  entries (w_cache (snd (list_media tabulate All w))) !! "media_list"%string =
    Some (tabulate rows, 60).
Proof.
  intros Hup Hmiss Hrows Hdata.
  rewrite (list_media_miss All w Hup Hmiss).
  destruct (fetch_rows All (after_events w [CacheGet "media_list"]) Hrows)
    as (res & tr & _ & Hrun & ->).
  cbn [after_events w_db bound] in Hrun. rewrite (Hrun v) in Hdata.
  inversion Hdata. subst res.
  rewrite cache_set_run. cbn [after_events w_cache]. rewrite Hup.
  cbn [snd w_cache entries]. apply lookup_insert_eq.
Qed.

End ListingProperties.

(** C3 (defect in the code): the specification has a call with a bound
    never read and never write the cache.  On the sample store of two media
    items, with an empty cache, [list_media(1)] issues the read of the key
    "media_list" and, after printing its listing of one row, stores that
    listing under the same key for 60 seconds: the write of [list_media]
    lacks the test on the limit that guards the read.  The next
    [list_media("all")] prints the stored one-row listing as the catalog
    and does not query the store. *)
Theorem list_media_bounded_touches_cache :
  list_media plain_table (Count 1) sample_world =
    (Ok tt,
     {| w_db := sample_db;
        w_cache := {| reachable := true;
                      entries := {[ "media_list"%string :=
                                      ("Movie: Heat"%string, 60) ]} |};
        w_trace :=
          [CacheGet "media_list"; Print "Fetching from database...";
           Execute (SelectCatalog (Some 1)); Print "Movie: Heat";
           CacheSet "media_list" "Movie: Heat" 60] |}) /\
  catalog sample_db None =
    [(1, "Heat"%string, "Movie"%string, Text "No Ratings");
     (2, "Dark"%string, "WebShow"%string, Text "No Ratings")] /\
  list_media plain_table All
    (snd (list_media plain_table (Count 1) sample_world)) =
    (Ok tt,
     after_events (snd (list_media plain_table (Count 1) sample_world))
       [CacheGet "media_list"; Print "Fetching from cache...";
        Print "Movie: Heat"]).
Proof. repeat split; reflexivity. Qed.

(** The listing a bounded call left in the cache is what the next unbounded
    call prints, although the store holds two media items. *)
Example bounded_listing_served_to_all :
  w_trace
    (snd (list_media plain_table All
            (snd (list_media plain_table (Count 1) sample_world)))) =
    [CacheGet "media_list"; Print "Fetching from database...";
     Execute (SelectCatalog (Some 1)); Print "Movie: Heat";
     CacheSet "media_list" "Movie: Heat" 60;
     CacheGet "media_list"; Print "Fetching from cache...";
     Print "Movie: Heat"].
Proof. reflexivity. Qed.

(** The use [list_media] makes of the cache.  A call with a bound issues
    the read of "media_list" first, as every call does, but never uses what
    it reads: its result, the store and everything it prints and executes
    are the same whatever the cache holds, and it executes the catalog
    query whenever the cache answers.  A call with limit = "all" that finds
    a non-empty value cached prints that value and returns, without a query
    and without a cache write; one that finds none and renders a non-empty
    listing stores it under "media_list" for 60 seconds.  Every cache
    operation of [list_media], for every limit, is a get of "media_list" or
    a set of "media_list" with 60 seconds to live. *)
Lemma list_media_cache_policy (tabulate : list table_row -> string) :
  (forall limit w,
     exists tr,
       w_trace (snd (list_media tabulate limit w)) =
         w_trace w ++ CacheGet "media_list" :: tr) /\
  (forall n w1 w2,
     w_db w1 = w_db w2 -> w_trace w1 = w_trace w2 ->
     reachable (w_cache w1) = reachable (w_cache w2) ->
     fst (list_media tabulate (Count n) w1) =
       fst (list_media tabulate (Count n) w2) /\
     w_db (snd (list_media tabulate (Count n) w1)) =
       w_db (snd (list_media tabulate (Count n) w2)) /\
     w_trace (snd (list_media tabulate (Count n) w1)) =
       w_trace (snd (list_media tabulate (Count n) w2))) /\
  (forall n w,
     reachable (w_cache w) = true ->
     In (Execute (SelectCatalog (Some n)))
        (w_trace (snd (list_media tabulate (Count n) w)))) /\
  (forall w text ex,
     reachable (w_cache w) = true ->
     entries (w_cache w) !! "media_list"%string = Some (text, ex) ->
     text <> ""%string ->
     list_media tabulate All w =
       (Ok tt,
        after_events w
          [CacheGet "media_list"; Print "Fetching from cache...";
           Print text])) /\
  (forall w v v' rows,
     reachable (w_cache w) = true ->
     serves_from_cache All (w_cache w) = false ->
     catalog (w_db w) None <> [] ->
     table_data (catalog (w_db w) None) v = (Ok rows, v') ->
     entries (w_cache (snd (list_media tabulate All w)))
       !! "media_list"%string = Some (tabulate rows, 60)) /\
  (forall limit w,
     exists tr,
       w_trace (snd (list_media tabulate limit w)) = w_trace w ++ tr /\
       forall e, In e (cache_events tr) ->
         e = CacheGet "media_list" \/
         exists value, e = CacheSet "media_list" value 60).
Proof.
  split; [|split; [|split; [|split; [|split]]]].
  - apply list_media_reads_first.
  - apply list_media_bounded_ignores_cache.
  - apply list_media_bounded_queries_store.
  - intros w text ex Hup Hentry Htext.
    apply (list_media_hit tabulate w text ex Hup Hentry).
    unfold truthy. apply negb_true_iff, String.eqb_neq. exact Htext.
  - apply list_media_all_stores.
  - intros limit w.
    destruct (list_media_cache_key tabulate limit w) as (tr & Htr & Hkeys & _).
    exists tr. split; assumption.
Qed.

Lemma list_media_cache_policy_witness :
  (reachable (w_cache cached_world) = true /\
   entries (w_cache cached_world) !! "media_list"%string =
     Some ("Movie: Heat|WebShow: Dark"%string, 60) /\
   "Movie: Heat|WebShow: Dark"%string <> ""%string) /\
  list_media plain_table All cached_world =
    (Ok tt,
     after_events cached_world
       [CacheGet "media_list"; Print "Fetching from cache...";
        Print "Movie: Heat|WebShow: Dark"]) /\
  w_trace (snd (list_media plain_table (Count 1) sample_world)) =
    w_trace (snd (list_media plain_table (Count 1) cached_world)).
Proof.
  destruct (list_media_cache_policy plain_table)
    as (_ & Hbounded & _ & Hhit & _ & _).
  assert (H1 : reachable (w_cache cached_world) = true) by reflexivity.
  assert (H2 : entries (w_cache cached_world) !! "media_list"%string =
               Some ("Movie: Heat|WebShow: Dark"%string, 60))
    by (vm_compute; reflexivity).
  assert (H3 : "Movie: Heat|WebShow: Dark"%string <> ""%string)
    by discriminate.
  split; [repeat split; assumption|]. split.
  - exact (Hhit cached_world _ _ H1 H2 H3).
  - exact (proj2 (proj2 (Hbounded 1 sample_world cached_world
                           eq_refl eq_refl eq_refl))).
Defined.

(** C4 (defect in the code): the specification has a cache failure fall
    back to the store and still produce the listing.  With the cache server
    down and two media items in the store, [list_media("all")] raises the
    cache's [ConnectionError] out of its first statement: nothing is printed
    and no query is executed. *)
Theorem list_media_cache_down_raises :
  list_media plain_table All cache_down_world =
    (Raise ConnectionError,
     {| w_db := sample_db;
        w_cache := {| reachable := false; entries := ∅ |};
        w_trace := [CacheGet "media_list"] |}).
Proof. reflexivity. Qed.

(** ** Average ratings in the listing *)

Lemma catalog_lookup (d : database) (lim : option Z) (i : nat)
    (r : catalog_row) :
  catalog d lim !! i = Some r ->
  exists m, media d !! i = Some m /\ r = catalog_group d m.
Proof.
  unfold catalog, LIMIT. intros H.
  assert (Hmap : map (catalog_group d) (media d) !! i = Some r).
  { destruct lim as [n|]; [|exact H].
    destruct (n <? 0); [exact H|].
    apply lookup_take_Some in H. apply H. }
  change (map (catalog_group d) (media d))
    with (catalog_group d <$> media d) in Hmap.
  apply list_lookup_fmap_Some in Hmap as (m & Hm & ->).
  now exists m.
Qed.

Lemma no_reviews_no_ratings (d : database) (media_id : Z) :
  (forall r, In r (reviews d) -> r_media_id r <> media_id) ->
  ratings_of d media_id = [].
Proof.
  unfold ratings_of. intros Hnone.
  induction (reviews d) as [|r rs IH]; [reflexivity|].
  cbn. destruct (Z.eqb_spec (r_media_id r) media_id) as [Heq|_].
  - exfalso. apply (Hnone r); [now left|exact Heq].
  - apply IH. intros r' Hr'. apply Hnone. now right.
Qed.

(** C8 (refuted as stated): the specification has the listing of
    [list_media] report 4.0 for a media item with exactly one review of
    rating 4.  The sample store is listed, which caches the listing for 60
    seconds, and then user 1 reviews media 1 with rating 4.  The store now
    holds that one review of media 1 and its catalog query gives the double
    4.0 for it, but [list_media("all")], called while the cached entry
    lives, does not run the query: it prints the cached listing, in which
    media 1 has "No Ratings". *)
Lemma list_media_cached_listing_is_stale :
  reviews (w_db listed_then_rated_world) =
    [{| r_user_id := 1; r_media_id := 1; r_rating := 4;
        r_comment := "good" |}] /\
  catalog (w_db listed_then_rated_world) None =
    [(1, "Heat"%string, "Movie"%string, Real 4%float);
     (2, "Dark"%string, "WebShow"%string, Text "No Ratings")] /\
  list_media rating_table All listed_then_rated_world =
    (Ok tt,
     after_events listed_then_rated_world
       [CacheGet "media_list"; Print "Fetching from cache...";
        Print "Movie: Heat - No Ratings|WebShow: Dark - No Ratings"]).
Proof. repeat split; reflexivity. Qed.

(** The same store listed without the cached entry: the query runs and the
    listing shows the rating. *)
Example list_media_fresh_listing_shows_rating :
  w_trace
    (snd (list_media rating_table All
            {| w_db := w_db listed_then_rated_world;
               w_cache := {| reachable := true; entries := ∅ |};
               w_trace := [] |})) =
    [CacheGet "media_list"; Print "Fetching from database...";
     Execute (SelectCatalog None);
     Print "Movie: Heat - 4|WebShow: Dark - No Ratings";
     CacheSet "media_list" "Movie: Heat - 4|WebShow: Dark - No Ratings" 60].
Proof. reflexivity. Qed.

(** C8 (amended): in the rows [list_media] builds from the catalog query,
    the row at a position belongs to the media item at that position; its
    average column is the text "No Ratings" when no review refers to the
    item, and the double 4.0 when exactly one review refers to it and rates
    it 4.  The rows depend on the store alone: from any world with the same
    store the query and the rendering give the same rows.  When the call
    goes to the store, that is when the cache answers and the limit is a
    bound or no non-empty listing is cached, and the result is not empty,
    these rows, rendered, are what it prints.  When a non-empty listing is
    cached, [list_media("all")] prints the cached text instead, whatever
    the store holds by then. *)
Theorem list_media_avg_rating (tabulate : list table_row -> string)
    (limit : limit) (w w1 w2 : world) (results : list catalog_row)
    (rows : list table_row) :
  select_catalog (bound limit) w = (Ok results, w1) ->
  table_data results w1 = (Ok rows, w2) ->
  (forall (i : nat) (row : table_row),
     rows !! i = Some row ->
     exists m,
       media (w_db w) !! i = Some m /\
       fst (fst row) = m_id m /\
       ((forall r, In r (reviews (w_db w)) -> r_media_id r <> m_id m) ->
        snd row = Text "No Ratings") /\
       (forall r,
          List.filter (fun r' => r_media_id r' =? m_id m) (reviews (w_db w))
            = [r] ->
          r_rating r = 4 ->
          snd row = Real 4%float)) /\
  (forall v, w_db v = w_db w ->
     fst (select_catalog (bound limit) v) = Ok results /\
     forall u, fst (table_data results u) = Ok rows) /\
  (reachable (w_cache w) = true ->
   serves_from_cache limit (w_cache w) = false ->
   results <> [] ->
   In (Print (tabulate rows))
      (w_trace (snd (list_media tabulate limit w)))) /\
  (forall text ex,
     reachable (w_cache w) = true ->
     entries (w_cache w) !! "media_list"%string = Some (text, ex) ->
     text <> ""%string ->
     list_media tabulate All w =
       (Ok tt,
        after_events w
          [CacheGet "media_list"; Print "Fetching from cache...";
           Print text])).
Proof.
  intros Hselect Hdata.
  assert (Hresults : results = catalog (w_db w) (bound limit)).
  { unfold select_catalog, execute, emit, read_db, bind, ret in Hselect.
    cbn in Hselect. now inversion Hselect. }
  split; [|split; [|split]].
  - intros i row Hrow.
    pose proof (table_data_columns results w1 w2 rows Hdata) as Hcols.
    assert (Hi : map (fun r : catalog_row => (fst (fst (fst r)), snd r))
                   results !! i = Some (fst (fst row), snd row)).
    { rewrite <- Hcols.
      change (map ?f rows) with (f <$> rows).
      rewrite list_lookup_fmap, Hrow. reflexivity. }
    change (map ?f results) with (f <$> results) in Hi.
    apply list_lookup_fmap_Some in Hi as (r & Heq & Hr).
    rewrite Hresults in Hr.
    apply catalog_lookup in Hr as (m & Hm & ->).
    unfold catalog_group in Heq. cbn [fst snd] in Heq.
    injection Heq as Hid Havg.
    exists m. split; [exact Hm|]. split; [exact Hid|]. split.
    + intros Hnone. rewrite Havg.
      now rewrite (no_reviews_no_ratings _ _ Hnone).
    + intros r Hone Hfour. rewrite Havg. unfold ratings_of. rewrite Hone.
      cbn [map]. rewrite Hfour. reflexivity.
  - intros v Hv. split.
    + unfold select_catalog, execute, emit, read_db, bind, ret.
      cbn. now rewrite Hv, Hresults.
    + intros u.
      destruct (table_data_uniform results) as (res & tr & _ & Hrun).
      rewrite Hrun in Hdata. rewrite Hrun. cbn.
      now inversion Hdata.
  - intros Hup Hmiss Hrows.
    rewrite (list_media_miss tabulate limit w Hup Hmiss).
    assert (Hne : catalog (w_db (after_events w [CacheGet "media_list"]))
                    (bound limit) <> [])
      by (cbn [after_events w_db]; now rewrite <- Hresults).
    destruct (fetch_rows tabulate limit
                (after_events w [CacheGet "media_list"]) Hne)
      as (res & tr & _ & Hrun & ->).
    cbn [after_events w_db] in Hrun. rewrite <- Hresults in Hrun.
    rewrite Hrun in Hdata. inversion Hdata. subst res.
    rewrite cache_set_run. cbn [after_events w_cache]. rewrite Hup.
    cbn [snd w_trace after_events]. rewrite !in_app_iff. cbn [In]. tauto.
  - intros text ex Hup Hentry Htext.
    apply (list_media_hit tabulate w text ex Hup Hentry).
    unfold truthy. apply negb_true_iff, String.eqb_neq. exact Htext.
Qed.

Lemma list_media_avg_rating_witness :
  let results : list catalog_row :=
    [(1, "Heat"%string, "Movie"%string, Real 4%float);
     (2, "Dark"%string, "WebShow"%string, Text "No Ratings")] in
  let rows : list table_row :=
    [(1, Some "Movie: Heat"%string, Real 4%float);
     (2, Some "WebShow: Dark"%string, Text "No Ratings")] in
  let w1 := after_events rated_world [Execute (SelectCatalog None)] in
  select_catalog (bound All) rated_world = (Ok results, w1) /\
  table_data results w1 = (Ok rows, w1) /\
  (exists m,
     media (w_db rated_world) !! 1%nat = Some m /\ m_id m = 2) /\
  In (Print (plain_table rows))
     (w_trace (snd (list_media plain_table All rated_world))).
Proof.
  intros results rows w1.
  assert (H1 : select_catalog (bound All) rated_world = (Ok results, w1))
    by reflexivity.
  assert (H2 : table_data results w1 = (Ok rows, w1)) by reflexivity.
  destruct (list_media_avg_rating plain_table All rated_world w1 w1
              results rows H1 H2) as (Hrows & _ & Hprint & _).
  split; [exact H1|]. split; [exact H2|]. split.
  - destruct (Hrows 1%nat (2, Some "WebShow: Dark"%string, Text "No Ratings")
                eq_refl) as (m & Hm & Hid & _).
    exists m. split; [exact Hm|]. symmetry. exact Hid.
  - apply Hprint; [reflexivity|reflexivity|discriminate].
Defined.

(** C10: when the catalog query has no row for the call's limit,
    [list_media] leaves the cache as it found it, the key "media_list" and
    its time to live included, and performs no cache write. *)
Theorem list_media_empty_keeps_cache (tabulate : list table_row -> string)
    (limit : limit) (w : world) :
  catalog (w_db w) (bound limit) = [] ->
  w_cache (snd (list_media tabulate limit w)) = w_cache w /\
  exists tr,
    w_trace (snd (list_media tabulate limit w)) = w_trace w ++ tr /\
    forall key value ex, ~ In (CacheSet key value ex) tr.
Proof.
  intros Hempty.
  destruct (reachable (w_cache w)) eqn:Hup.
  - destruct (serves_from_cache limit (w_cache w)) eqn:Hserve.
    + apply served_from_cache in Hserve as (-> & text & ex & Hentry & Htext).
      rewrite (list_media_hit tabulate w text ex Hup Hentry Htext).
      split; [reflexivity|]. eexists. split; [reflexivity|].
      intros key value ex' [H|[H|[H|[]]]]; discriminate H.
    + rewrite (list_media_miss tabulate limit w Hup Hserve).
      rewrite fetch_empty by exact Hempty.
      split; [reflexivity|]. cbn [snd after_events w_trace].
      rewrite <- app_assoc. eexists. split; [reflexivity|].
      intros key value ex' [H|[H|[H|[H|[]]]]]; discriminate H.
  - rewrite (list_media_unreachable tabulate limit w Hup).
    split; [reflexivity|]. eexists. split; [reflexivity|].
    intros key value ex' [H|[]]; discriminate H.
Qed.

Lemma list_media_empty_keeps_cache_witness :
  catalog (w_db world0) (bound All) = [] /\
  w_cache (snd (list_media plain_table All world0)) = w_cache world0.
Proof.
  assert (H : catalog (w_db world0) (bound All) = []) by reflexivity.
  split; [exact H|].
  exact (proj1 (list_media_empty_keeps_cache plain_table All world0 H)).
Defined.

(** ** Deleting a user: [remove_user] *)

(** Whatever the user id, [remove_user] leaves the reviews, alerts and
    favorites tables as they were. *)
Lemma remove_user_keeps_children (user_id : Z) (w : world) :
  reviews (w_db (snd (remove_user user_id w))) = reviews (w_db w) /\
  alerts (w_db (snd (remove_user user_id w))) = alerts (w_db w) /\
  favorites (w_db (snd (remove_user user_id w))) = favorites (w_db w).
Proof.
  unfold remove_user, except_sqlite3_Error, delete_user, PRAGMA_foreign_keys,
    execute, emit, read_db, write_db, bind, ret.
  cbn [w_db w_cache w_trace].
  destruct (List.filter (fun u => u_id u =? user_id) (users (w_db w)));
    cbn; repeat split; reflexivity.
Qed.

(** Were foreign keys enforced, the favorites of the user would still stay:
    the table declares no action on delete. *)
Lemma delete_user_enforced_keeps_favorites (user_id : Z) (w : world) :
  favorites (w_db (snd (delete_user true user_id w))) = favorites (w_db w).
Proof.
  unfold delete_user, execute, emit, read_db, write_db, bind, ret, raise.
  cbn [w_db w_cache w_trace].
  destruct (List.filter (fun u => u_id u =? user_id) (users (w_db w)));
    [reflexivity|].
  destruct (existsb (fun f => f_user_id f =? user_id) (favorites (w_db w)));
    reflexivity.
Qed.

(** C5 (defect in the code): the specification has the removal of a user
    take the user's reviews, alerts and favorites along.  User 1 owns one
    row in each of the three tables; [remove_user(1)] deletes the user row
    and reports success, and the three rows that refer to user 1 are still
    there. *)
Theorem remove_user_leaves_owned_rows :
  remove_user 1 owner_world =
    (Ok tt,
     {| w_db :=
          {| users := [bob]; media := [heat];
             reviews := [{| r_user_id := 1; r_media_id := 1; r_rating := 5;
                            r_comment := "Great movie!" |}];
             alerts := [{| a_user_id := 1;
                           a_alert := "User 2 added a review for media ID 1." |}];
             favorites := [{| f_user_id := 1; f_media_id := 1 |}] |};
        w_cache := {| reachable := true; entries := ∅ |};
        w_trace := [Execute (DeleteUser 1);
                    Print "User with ID 1 removed successfully."] |}).
Proof. reflexivity. Qed.

(** ** The uniqueness of favorites is an invariant *)

Lemma add_review_keeps_favorites (schedule reviews : list review_item)
    (user_id : Z) (w : world) :
  favorites (w_db (snd (add_review schedule user_id reviews w))) =
  favorites (w_db w).
Proof.
  destruct (user_known_or_not user_id w) as [Hin|Hnot].
  - destruct (add_review_known_user schedule reviews user_id w Hin)
      as [tr ->].
    reflexivity.
  - unfold add_review. unfold bind at 1.
    now rewrite (select_unknown_user user_id w Hnot).
Qed.

Lemma empty_db_unique : unique_favorites empty_db.
Proof. apply NoDup_nil_2. Qed.

(** * Further properties *)

(** ** Printing loops *)

Lemma for_each_print {A} (line : A -> string) (xs : list A) (w : world) :
  for_each xs (fun x => print (line x)) w =
    (Ok tt, after_events w (map (fun x => Print (line x)) xs)).
Proof.
  revert w. induction xs as [|x xs IH]; intros w.
  - cbn. unfold ret. now rewrite after_no_events.
  - cbn [for_each map]. unfold bind. unfold print at 1, emit at 1.
    rewrite IH. unfold after_events. cbn [w_db w_cache w_trace].
    rewrite <- app_assoc. reflexivity.
Qed.

(** ** Catalog maintenance: [add_media] *)

Lemma title_taken (title : string) (ms : list media_row) :
  existsb (fun m => String.eqb (m_title m) title) ms = true <->
  In title (map m_title ms).
Proof.
  rewrite existsb_exists, in_map_iff. split.
  - intros (m & Hm & Heq). apply String.eqb_eq in Heq. now exists m.
  - intros (m & Heq & Hm). exists m. split; [exact Hm|].
    now apply String.eqb_eq.
Qed.

Lemma fetchone_title (title : string) (ms : list media_row) :
  head (List.filter (fun m => String.eqb (m_title m) title) ms) = None <->
  ~ In title (map m_title ms).
Proof.
  induction ms as [|m ms IH]; [cbn; tauto|].
  cbn [List.filter map]. destruct (String.eqb_spec (m_title m) title) as [Heq|Hne].
  - cbn. split; [discriminate|]. intros H. exfalso. apply H. now left.
  - rewrite IH. cbn. tauto.
Qed.

Lemma valid_type_iff (media_type : string) :
  is_valid_type media_type = true <-> In media_type valid_types.
Proof.
  unfold is_valid_type. rewrite existsb_exists. split.
  - intros (k & Hk & Heq). apply String.eqb_eq in Heq. now subst.
  - intros Hin. exists media_type. split; [exact Hin|].
    apply String.eqb_refl.
Qed.

Lemma add_media_invalid (rowid : Z) (title media_type : string) (w : world) :
  ~ In media_type valid_types ->
  add_media rowid title media_type w =
    (Ok tt,
     after_events w
       [Print ("Invalid media type '" +:+ media_type +:+
               "'. Choose from ['Movie', 'WebShow', 'Song', 'Cartoon'].")]).
Proof.
  intros Hbad. unfold add_media, except_sqlite3_Error.
  destruct (is_valid_type media_type) eqn:E.
  - apply valid_type_iff in E. contradiction.
  - reflexivity.
Qed.

Lemma add_media_existing (rowid : Z) (title media_type : string) (w : world) :
  In media_type valid_types ->
  In title (map m_title (media (w_db w))) ->
  add_media rowid title media_type w =
    (Ok tt,
     after_events w
       [Print ("Media item '" +:+ title +:+
               "' already exists in the database.")]).
Proof.
  intros Hok Htaken. unfold add_media, except_sqlite3_Error.
  apply valid_type_iff in Hok. rewrite Hok. cbn [negb].
  unfold select_media_by_title, read_db, bind, ret. cbn [w_db].
  destruct (head _) as [m|] eqn:E.
  - reflexivity.
  - apply fetchone_title in E. contradiction.
Qed.

Lemma add_media_fresh (rowid : Z) (title media_type : string) (w : world) :
  In media_type valid_types ->
  ~ In title (map m_title (media (w_db w))) ->
  add_media rowid title media_type w =
    (Ok tt,
     {| w_db := with_media (w_db w)
                  (media (w_db w) ++
                   [{| m_id := rowid; m_title := title;
                       m_type := media_type |}]);
        w_cache := w_cache w;
        w_trace := w_trace w ++
          [Print ("Media item '" +:+ title +:+
                  "' added successfully as a '" +:+ media_type +:+ "'!")] |}).
Proof.
  intros Hok Hfree. unfold add_media, except_sqlite3_Error.
  apply valid_type_iff in Hok. rewrite Hok. cbn [negb].
  unfold select_media_by_title, insert_media, read_db, write_db, bind, ret.
  cbn [w_db].
  destruct (head _) as [m|] eqn:E.
  - exfalso. assert (H : head (List.filter
                 (fun m => String.eqb (m_title m) title) (media (w_db w)))
               <> None) by (rewrite E; discriminate).
    apply H, fetchone_title. exact Hfree.
  - destruct (existsb _ (media (w_db w))) eqn:Ex.
    + apply title_taken in Ex. contradiction.
    + reflexivity.
Qed.

Lemma in_dec_string (x : string) (l : list string) : In x l \/ ~ In x l.
Proof. destruct (in_dec String.string_dec x l); [left|right]; assumption. Qed.

(** X1: [add_media] never fails, touches the media table only, and adds the one
    new row exactly when the type is one of the four valid types and the
    title is not in the table yet; in every other case the store stays as
    it is. *)
Theorem add_media_store_effect (rowid : Z) (title media_type : string)
    (w : world) :
  let w' := snd (add_media rowid title media_type w) in
  fst (add_media rowid title media_type w) = Ok tt /\
  w_cache w' = w_cache w /\
  users (w_db w') = users (w_db w) /\
  reviews (w_db w') = reviews (w_db w) /\
  alerts (w_db w') = alerts (w_db w) /\
  favorites (w_db w') = favorites (w_db w) /\
  (In media_type valid_types ->
   ~ In title (map m_title (media (w_db w))) ->
   media (w_db w') =
     media (w_db w) ++
       [{| m_id := rowid; m_title := title; m_type := media_type |}]) /\
  (~ In media_type valid_types \/ In title (map m_title (media (w_db w))) ->
   w_db w' = w_db w).
Proof.
  intros w'. subst w'.
  destruct (in_dec_string media_type valid_types) as [Hok|Hbad].
  - destruct (in_dec_string title (map m_title (media (w_db w))))
      as [Htaken|Hfree].
    + rewrite (add_media_existing rowid title media_type w Hok Htaken).
      cbn. repeat split; try reflexivity. intros _ H. contradiction.
    + rewrite (add_media_fresh rowid title media_type w Hok Hfree).
      cbn. repeat split; try reflexivity.
      intros [H|H]; contradiction.
  - rewrite (add_media_invalid rowid title media_type w Hbad).
    cbn. repeat split; try reflexivity. intros H. contradiction.
Qed.

Lemma add_media_store_effect_witness :
  (In "Cartoon"%string valid_types /\
   ~ In "Tom and Jerry"%string (map m_title (media (w_db sample_world)))) /\
  media (w_db (snd (add_media 3 "Tom and Jerry" "Cartoon" sample_world))) =
    [heat; dark;
     {| m_id := 3; m_title := "Tom and Jerry"; m_type := "Cartoon" |}] /\
  w_db (snd (add_media 3 "Heat" "Song" sample_world)) = sample_db.
Proof.
  assert (H1 : In "Cartoon"%string valid_types)
    by (cbn; right; right; right; left; reflexivity).
  assert (H2 : ~ In "Tom and Jerry"%string
                 (map m_title (media (w_db sample_world))))
    by (cbn; intros [H|[H|[]]]; discriminate H).
  split; [split; assumption|]. split.
  - destruct (add_media_store_effect 3 "Tom and Jerry" "Cartoon" sample_world)
      as (_ & _ & _ & _ & _ & _ & Hnew & _).
    exact (Hnew H1 H2).
  - destruct (add_media_store_effect 3 "Heat" "Song" sample_world)
      as (_ & _ & _ & _ & _ & _ & _ & Hsame).
    apply Hsame. right. cbn. left. reflexivity.
Defined.

Lemma add_media_outcome (rowid : Z) (title media_type : string) (w : world) :
  w_db (snd (add_media rowid title media_type w)) = w_db w \/
  (~ In title (map m_title (media (w_db w))) /\
   w_db (snd (add_media rowid title media_type w)) =
     with_media (w_db w)
       (media (w_db w) ++
        [{| m_id := rowid; m_title := title; m_type := media_type |}])).
Proof.
  destruct (in_dec_string media_type valid_types) as [Hok|Hbad].
  - destruct (in_dec_string title (map m_title (media (w_db w))))
      as [Htaken|Hfree].
    + left. now rewrite (add_media_existing rowid title media_type w Hok Htaken).
    + right. split; [exact Hfree|].
      now rewrite (add_media_fresh rowid title media_type w Hok Hfree).
  - left. now rewrite (add_media_invalid rowid title media_type w Hbad).
Qed.

(** X2: The keys of the media table stay unique across [add_media]: the titles
    always, the ids when the engine's id is above the ids of the table. *)
Theorem add_media_keeps_keys_unique (rowid : Z) (title media_type : string)
    (w : world) :
  (unique_titles (w_db w) ->
   unique_titles (w_db (snd (add_media rowid title media_type w)))) /\
  (unique_media_ids (w_db w) ->
   (forall m, In m (media (w_db w)) -> m_id m < rowid) ->
   unique_media_ids (w_db (snd (add_media rowid title media_type w)))).
Proof.
  unfold unique_titles, unique_media_ids.
  destruct (add_media_outcome rowid title media_type w) as [->|[Hfree ->]].
  - split; [tauto|]. intros H _. exact H.
  - cbn [media with_media]. rewrite !map_app. cbn [map m_title m_id].
    split.
    + intros Huniq. apply NoDup_app. split; [exact Huniq|].
      split; [|apply NoDup_singleton].
      intros x Hx Hx'. apply list_elem_of_In in Hx.
      apply list_elem_of_In in Hx'. destruct Hx' as [<-|[]]. contradiction.
    + intros Huniq Habove. apply NoDup_app. split; [exact Huniq|].
      split; [|apply NoDup_singleton].
      intros x Hx Hx'. apply list_elem_of_In in Hx.
      apply list_elem_of_In in Hx'. destruct Hx' as [<-|[]].
      apply in_map_iff in Hx as (m & Hid & Hm).
      specialize (Habove m Hm). lia.
Qed.

Lemma add_media_keeps_keys_unique_witness :
  (unique_titles (w_db sample_world) /\
   unique_media_ids (w_db sample_world) /\
   (forall m, In m (media (w_db sample_world)) -> m_id m < 3)) /\
  unique_titles (w_db (snd (add_media 3 "Up" "Cartoon" sample_world))) /\
  unique_media_ids (w_db (snd (add_media 3 "Up" "Cartoon" sample_world))).
Proof.
  assert (H1 : unique_titles (w_db sample_world)).
  { unfold unique_titles. cbn. apply NoDup_cons. split.
    - intros H. apply list_elem_of_In in H. destruct H as [H|[]].
      discriminate H.
    - apply NoDup_singleton. }
  assert (H2 : unique_media_ids (w_db sample_world)).
  { unfold unique_media_ids. cbn. apply NoDup_cons. split.
    - intros H. apply list_elem_of_In in H. destruct H as [H|[]].
      discriminate H.
    - apply NoDup_singleton. }
  assert (H3 : forall m, In m (media (w_db sample_world)) -> m_id m < 3).
  { cbn. intros m [<-|[<-|[]]]; cbn; lia. }
  split; [repeat split; assumption|].
  destruct (add_media_keeps_keys_unique 3 "Up" "Cartoon" sample_world)
    as [Ht Hi].
  split; [exact (Ht H1)|exact (Hi H2 H3)].
Defined.

(** X3: Once a title has been added, adding it again changes nothing, whatever
    the type and the id offered the second time. *)
Theorem add_media_again (rowid rowid' : Z) (title media_type media_type' : string)
    (w : world) :
  In media_type valid_types ->
  let w1 := snd (add_media rowid title media_type w) in
  In title (map m_title (media (w_db w1))) /\
  w_db (snd (add_media rowid' title media_type' w1)) = w_db w1.
Proof.
  intros Hok w1.
  assert (Hin : In title (map m_title (media (w_db w1)))).
  { subst w1.
    destruct (in_dec_string title (map m_title (media (w_db w))))
      as [Htaken|Hfree].
    - now rewrite (add_media_existing rowid title media_type w Hok Htaken).
    - rewrite (add_media_fresh rowid title media_type w Hok Hfree).
      cbn. rewrite map_app. apply in_or_app. right. now left. }
  split; [exact Hin|].
  destruct (add_media_outcome rowid' title media_type' w1) as [H|[Hfree _]];
    [exact H|contradiction].
Qed.

Lemma add_media_again_witness :
  In "Song"%string valid_types /\
  w_db (snd (add_media 4 "Up" "Movie" (snd (add_media 3 "Up" "Song" world0)))) =
  w_db (snd (add_media 3 "Up" "Song" world0)).
Proof.
  assert (H : In "Song"%string valid_types)
    by (cbn; right; right; left; reflexivity).
  split; [exact H|].
  exact (proj2 (add_media_again 3 4 "Up" "Song" "Movie" world0 H)).
Defined.

(** ** Listing a catalog with a type the factory cannot build *)

Lemma registered_dec (k : string) : registered k \/ ~ registered k.
Proof.
  unfold registered.
  destruct (String.string_dec k "Movie") as [->|H1]; [tauto|].
  destruct (String.string_dec k "WebShow") as [->|H2]; [tauto|].
  destruct (String.string_dec k "Song") as [->|H3]; tauto.
Qed.

Lemma table_data_unrenderable (results : list catalog_row) :
  (exists r, In r results /\ ~ registered (snd (fst r))) ->
  forall w, fst (table_data results w) = Raise TypeError.
Proof.
  intros Hbad. unfold table_data. set (f := fun row : catalog_row => _).
  revert Hbad.
  induction results as [|[[[id t] k] avg] results IH]; intros (r & Hin & Hbad) w.
  - destruct Hin.
  - cbn [comprehension]. unfold bind at 1. unfold f at 1. unfold bind at 1.
    destruct (registered_dec k) as [Hreg|Hunreg].
    + destruct (create_media_registered t k w Hreg) as (obj & -> & _).
      unfold ret at 1. unfold bind at 1.
      assert (Htail : exists r, In r results /\ ~ registered (snd (fst r))).
      { destruct Hin as [<-|Hin]; [contradiction|]. now exists r. }
      specialize (IH Htail w).
      destruct (comprehension f results w) as [[rows|e] w1]; cbn in IH |- *;
        [discriminate|exact IH].
    + unfold registered in Hunreg.
      rewrite create_media_unregistered by tauto. reflexivity.
Qed.

Lemma fetch_unrenderable (tabulate : list table_row -> string)
    (limit : limit) (w : world) :
  (exists r, In r (catalog (w_db w) (bound limit)) /\
             ~ registered (snd (fst r))) ->
  fst (fetch_from_database tabulate limit w) = Raise TypeError /\
  w_db (snd (fetch_from_database tabulate limit w)) = w_db w /\
  w_cache (snd (fetch_from_database tabulate limit w)) = w_cache w.
Proof.
  intros Hbad.
  assert (Hne : catalog (w_db w) (bound limit) <> []).
  { destruct Hbad as (r & Hin & _). intros E. rewrite E in Hin. destruct Hin. }
  destruct (fetch_rows tabulate limit w Hne) as (res & tr & _ & Hrun & ->).
  pose proof (table_data_unrenderable _ Hbad w) as Hraise.
  rewrite Hrun in Hraise. cbn in Hraise. subst res.
  repeat split; reflexivity.
Qed.

(** X4: A call of [list_media] that goes to the store and finds, among the rows
    of its query, a media item whose type is not "Movie", "WebShow" or
    "Song" raises [TypeError]; the cache and the store stay as they were. *)
Theorem list_media_unregistered_type (tabulate : list table_row -> string)
    (limit : limit) (w : world) :
  reachable (w_cache w) = true ->
  serves_from_cache limit (w_cache w) = false ->
  (exists r, In r (catalog (w_db w) (bound limit)) /\
             ~ registered (snd (fst r))) ->
  fst (list_media tabulate limit w) = Raise TypeError /\
  w_db (snd (list_media tabulate limit w)) = w_db w /\
  w_cache (snd (list_media tabulate limit w)) = w_cache w.
Proof.
  intros Hup Hmiss Hbad.
  rewrite (list_media_miss tabulate limit w Hup Hmiss).
  apply (fetch_unrenderable tabulate limit
           (after_events w [CacheGet "media_list"])).
  exact Hbad.
Qed.

Lemma list_media_unregistered_type_witness :
  let w := snd (add_media 3 "Up" "Cartoon" sample_world) in
  (reachable (w_cache w) = true /\
   serves_from_cache (Count 5) (w_cache w) = false /\
   (exists r, In r (catalog (w_db w) (bound (Count 5))) /\
              ~ registered (snd (fst r)))) /\
  fst (list_media plain_table (Count 5) w) = Raise TypeError.
Proof.
  intros w.
  assert (H1 : reachable (w_cache w) = true) by reflexivity.
  assert (H2 : serves_from_cache (Count 5) (w_cache w) = false)
    by reflexivity.
  assert (H3 : exists r, In r (catalog (w_db w) (bound (Count 5))) /\
                         ~ registered (snd (fst r))).
  { exists (3, "Up"%string, "Cartoon"%string, Text "No Ratings"). split.
    - cbn. right. right. left. reflexivity.
    - cbn. intros [H|[H|H]]; discriminate H. }
  split; [repeat split; assumption|].
  exact (proj1 (list_media_unregistered_type plain_table (Count 5) w H1 H2 H3)).
Defined.

(** X5: [add_media] accepts the type "Cartoon", and with one such item in the
    catalog the unbounded listing can no longer be built: every call of
    [list_media("all")] that goes to the store raises [TypeError]. *)
Theorem cartoon_breaks_listing (tabulate : list table_row -> string)
    (rowid : Z) (title : string) (w : world) :
  reachable (w_cache w) = true ->
  serves_from_cache All (w_cache w) = false ->
  ~ In title (map m_title (media (w_db w))) ->
  let w1 := snd (add_media rowid title "Cartoon" w) in
  fst (add_media rowid title "Cartoon" w) = Ok tt /\
  fst (list_media tabulate All w1) = Raise TypeError.
Proof.
  intros Hup Hmiss Hfree w1. subst w1.
  assert (Hok : In "Cartoon"%string valid_types)
    by (cbn; right; right; right; left; reflexivity).
  rewrite (add_media_fresh rowid title "Cartoon" w Hok Hfree).
  split; [reflexivity|]. cbn [snd].
  match goal with |- fst (list_media tabulate All ?w1) = _ =>
    rewrite (list_media_miss tabulate All w1 Hup Hmiss);
    apply (fetch_unrenderable tabulate All
             (after_events w1 [CacheGet "media_list"])) end.
  exists (catalog_group
            (with_media (w_db w)
               (media (w_db w) ++
                [{| m_id := rowid; m_title := title; m_type := "Cartoon" |}]))
            {| m_id := rowid; m_title := title; m_type := "Cartoon" |}).
  split.
  - cbn [bound catalog after_events w_db media with_media].
    apply in_map. apply in_or_app. right. now left.
  - cbn. intros [H|[H|H]]; discriminate H.
Qed.

Lemma cartoon_breaks_listing_witness :
  (reachable (w_cache sample_world) = true /\
   serves_from_cache All (w_cache sample_world) = false /\
   ~ In "Up"%string (map m_title (media (w_db sample_world)))) /\
  fst (list_media plain_table All (snd (add_media 3 "Up" "Cartoon" sample_world)))
    = Raise TypeError.
Proof.
  assert (H1 : reachable (w_cache sample_world) = true) by reflexivity.
  assert (H2 : serves_from_cache All (w_cache sample_world) = false)
    by reflexivity.
  assert (H3 : ~ In "Up"%string (map m_title (media (w_db sample_world))))
    by (cbn; intros [H|[H|[]]]; discriminate H).
  split; [repeat split; assumption|].
  exact (proj2 (cartoon_breaks_listing plain_table 3 "Up" sample_world H1 H2 H3)).
Defined.

(** ** The cached listing and the bounds of the limit *)

Lemma add_review_keeps_cache (schedule reviews : list review_item)
    (user_id : Z) (w : world) :
  w_cache (snd (add_review schedule user_id reviews w)) = w_cache w.
Proof.
  destruct (user_known_or_not user_id w) as [Hin|Hnot].
  - destruct (add_review_known_user schedule reviews user_id w Hin)
      as [tr ->].
    reflexivity.
  - unfold add_review. unfold bind at 1.
    now rewrite (select_unknown_user user_id w Hnot).
Qed.

(** X6: Reviews do not invalidate the cached listing: whatever batch has been
    submitted since, [list_media("all")] prints the text that was cached
    before and does not consult the store. *)
Theorem cached_listing_survives_reviews (tabulate : list table_row -> string)
    (schedule batch : list review_item) (user_id : Z) (w : world)
    (text : string) (ex : Z) :
  reachable (w_cache w) = true ->
  entries (w_cache w) !! "media_list"%string = Some (text, ex) ->
  text <> ""%string ->
  let w1 := snd (add_review schedule user_id batch w) in
  list_media tabulate All w1 =
    (Ok tt,
     after_events w1
       [CacheGet "media_list"; Print "Fetching from cache..."; Print text]).
Proof.
  intros Hup Hentry Htext w1.
  assert (Hcache : w_cache w1 = w_cache w) by apply add_review_keeps_cache.
  apply (list_media_hit tabulate w1 text ex).
  - now rewrite Hcache.
  - now rewrite Hcache.
  - unfold truthy. apply negb_true_iff, String.eqb_neq. exact Htext.
Qed.

Lemma cached_listing_survives_reviews_witness :
  (reachable (w_cache cached_world) = true /\
   entries (w_cache cached_world) !! "media_list"%string =
     Some ("Movie: Heat|WebShow: Dark"%string, 60) /\
   "Movie: Heat|WebShow: Dark"%string <> ""%string) /\
  w_trace
    (snd (list_media plain_table All
            (snd (add_review [(1, 2, "dull"%string)] 1 [(1, 2, "dull"%string)]
                    cached_world)))) =
  w_trace (snd (add_review [(1, 2, "dull"%string)] 1 [(1, 2, "dull"%string)]
                  cached_world)) ++
    [CacheGet "media_list"; Print "Fetching from cache...";
     Print "Movie: Heat|WebShow: Dark"].
Proof.
  assert (H1 : reachable (w_cache cached_world) = true) by reflexivity.
  assert (H2 : entries (w_cache cached_world) !! "media_list"%string =
               Some ("Movie: Heat|WebShow: Dark"%string, 60))
    by (vm_compute; reflexivity).
  assert (H3 : "Movie: Heat|WebShow: Dark"%string <> ""%string)
    by discriminate.
  split; [repeat split; assumption|].
  rewrite (cached_listing_survives_reviews plain_table
             [(1, 2, "dull"%string)] [(1, 2, "dull"%string)] 1 cached_world
             _ _ H1 H2 H3).
  reflexivity.
Defined.

Lemma catalog_length (d : database) : length (catalog d None) = length (media d).
Proof. unfold catalog. apply length_map. Qed.

(** X7: The bounds of the limit: [list_media(0)] reports that no media was
    found whatever the store holds; a negative bound, or one that is not
    below the number of media items, selects the rows of the unbounded
    query; a bound in between selects that many rows. *)
Theorem list_media_limit_bounds (tabulate : list table_row -> string)
    (n : Z) (w : world) :
  (reachable (w_cache w) = true ->
   list_media tabulate (Count 0) w =
     (Ok tt,
      after_events w
        [CacheGet "media_list"; Print "Fetching from database...";
         Execute (SelectCatalog (Some 0));
         Print "No media found. Please add media first!"])) /\
  (n < 0 \/ Z.of_nat (length (media (w_db w))) <= n ->
   catalog (w_db w) (Some n) = catalog (w_db w) None) /\
  (0 <= n <= Z.of_nat (length (media (w_db w))) ->
   length (catalog (w_db w) (Some n)) = Z.to_nat n).
Proof.
  split; [|split].
  - intros Hup.
    rewrite (list_media_miss tabulate (Count 0) w Hup (bounded_never_served 0 _)).
    rewrite fetch_empty by reflexivity.
    now rewrite after_after.
  - intros Hn. unfold catalog, LIMIT.
    destruct (Z.ltb_spec n 0) as [Hneg|Hpos]; [reflexivity|].
    apply take_ge. rewrite length_map. lia.
  - intros Hn. unfold catalog, LIMIT.
    destruct (Z.ltb_spec n 0) as [Hneg|Hpos]; [lia|].
    rewrite length_take, length_map. lia.
Qed.

Lemma list_media_limit_bounds_witness :
  (reachable (w_cache sample_world) = true /\
   (-1 < 0 \/ Z.of_nat (length (media (w_db sample_world))) <= -1) /\
   0 <= 1 <= Z.of_nat (length (media (w_db sample_world)))) /\
  w_trace (snd (list_media plain_table (Count 0) sample_world)) =
    [CacheGet "media_list"; Print "Fetching from database...";
     Execute (SelectCatalog (Some 0));
     Print "No media found. Please add media first!"] /\
  catalog (w_db sample_world) (Some (-1)) = catalog (w_db sample_world) None /\
  length (catalog (w_db sample_world) (Some 1)) = 1%nat.
Proof.
  assert (H1 : reachable (w_cache sample_world) = true) by reflexivity.
  assert (H2 : -1 < 0 \/ Z.of_nat (length (media (w_db sample_world))) <= -1)
    by (left; lia).
  assert (H3 : 0 <= 1 <= Z.of_nat (length (media (w_db sample_world))))
    by (cbn; lia).
  split; [repeat split; try assumption; apply H3|].
  split; [|split].
  - rewrite (proj1 (list_media_limit_bounds plain_table 0 sample_world) H1).
    reflexivity.
  - exact (proj1 (proj2 (list_media_limit_bounds plain_table (-1) sample_world)) H2).
  - exact (proj2 (proj2 (list_media_limit_bounds plain_table 1 sample_world)) H3).
Defined.

(** ** Batches of reviews *)

Lemma filter_length_perm {A} (p : A -> bool) (l1 l2 : list A) :
  Permutation l1 l2 ->
  length (List.filter p l1) = length (List.filter p l2).
Proof.
  induction 1 as [|x l1 l2 _ IH|x y l|l1 l2 l3 _ IH1 _ IH2]; cbn.
  - reflexivity.
  - destruct (p x); cbn; now rewrite IH.
  - destruct (p x), (p y); reflexivity.
  - now rewrite IH1.
Qed.



Lemma item_alert_count (d : database) (A B : Z) (item : review_item) :
  NoDup (favorites d) -> B <> A ->
  length (alerts_of B (item_alerts d A item)) =
    if has_favorited d B (fst (fst item)) then 1%nat else 0%nat.
Proof.
  intros Huniq Hne. unfold item_alerts, recipients, has_favorited.
  rewrite alerts_of_alert_to, length_map.
  destruct (existsb _ (favorites d)) eqn:E.
  - apply conflict_iff in E.
    apply recipients_once;
      [now apply index_scan_NoDup|exact Hne|now apply index_scan_In].
  - rewrite recipients_absent; [reflexivity|].
    intros Hin. apply index_scan_In, conflict_iff in Hin. congruence.
Qed.

Lemma batch_alert_count (d : database) (A B : Z) (items : list review_item) :
  NoDup (favorites d) -> B <> A ->
  length (alerts_of B (batch_alerts d A items)) =
  length (List.filter (fun item => has_favorited d B (fst (fst item))) items).
Proof.
  intros Huniq Hne. unfold batch_alerts.
  induction items as [|item items IH]; [reflexivity|].
  cbn [flat_map List.filter]. unfold alerts_of in *.
  rewrite List.filter_app, length_app, IH.
  fold (alerts_of B (item_alerts d A item)).
  rewrite (item_alert_count d A B item Huniq Hne).
  destruct (has_favorited d B (fst (fst item))); reflexivity.
Qed.

(** X9: Alerts are not merged within a batch: a user other than the reviewer
    receives one alert for every item whose transaction commits and whose
    media that user has favorited, so two committed reviews of one
    favorited media give two alerts.  Counted over the batch: the alerts
    gained are as many as the batch has items with a favorited media, less
    those among the items whose threads failed. *)
Theorem add_review_alert_per_item (schedule failed batch : list review_item)
    (A B : Z) (w : world) :
  Permutation (schedule ++ failed) batch ->
  In A (map u_id (users (w_db w))) ->
  unique_favorites (w_db w) ->
  B <> A ->
  let favorite_of_B :=
    fun item : review_item => has_favorited (w_db w) B (fst (fst item)) in
  let after := alerts (w_db (snd (add_review schedule A batch w))) in
  length (alerts_of B after) =
    (length (alerts_of B (alerts (w_db w))) +
     length (List.filter favorite_of_B schedule))%nat /\
  (length (alerts_of B after) + length (List.filter favorite_of_B failed) =
   length (alerts_of B (alerts (w_db w))) +
   length (List.filter favorite_of_B batch))%nat.
Proof.
  intros Hperm Hin Huniq Hne favorite_of_B after. subst after.
  destruct (add_review_known_user schedule batch A w Hin) as [tr ->].
  cbn [snd w_db after_tasks alerts].
  assert (Hgain :
    length (alerts_of B (alerts (w_db w) ++ batch_alerts (w_db w) A schedule)) =
    (length (alerts_of B (alerts (w_db w))) +
     length (List.filter favorite_of_B schedule))%nat).
  { unfold alerts_of at 1. rewrite List.filter_app, length_app.
    fold (alerts_of B (alerts (w_db w))).
    fold (alerts_of B (batch_alerts (w_db w) A schedule)).
    now rewrite (batch_alert_count (w_db w) A B schedule Huniq Hne). }
  split; [exact Hgain|].
  rewrite Hgain, <- (filter_length_perm favorite_of_B _ _ Hperm).
  rewrite List.filter_app, length_app. lia.
Qed.

Lemma add_review_alert_per_item_witness :
  (Permutation ([(1, 5, "a"%string); (1, 4, "b"%string)] ++
                [(1, 3, "c"%string)])
     [(1, 5, "a"%string); (1, 3, "c"%string); (1, 4, "b"%string)] /\
   In 1 (map u_id (users (w_db sample_world))) /\
   unique_favorites (w_db sample_world) /\ 2 <> 1) /\
  length (alerts_of 2
            (alerts (w_db (snd (add_review
                                  [(1, 5, "a"%string); (1, 4, "b"%string)] 1
                                  [(1, 5, "a"%string); (1, 3, "c"%string);
                                   (1, 4, "b"%string)]
                                  sample_world))))) = 2%nat.
Proof.
  assert (H1 : Permutation ([(1, 5, "a"%string); (1, 4, "b"%string)] ++
                            [(1, 3, "c"%string)])
                 [(1, 5, "a"%string); (1, 3, "c"%string); (1, 4, "b"%string)])
    by (apply perm_skip, perm_swap).
  assert (H2 : In 1 (map u_id (users (w_db sample_world))))
    by (cbn; left; reflexivity).
  assert (H3 : unique_favorites (w_db sample_world)) by apply NoDup_singleton.
  assert (H4 : 2 <> 1) by lia.
  split; [repeat split; assumption|].
  rewrite (proj1 (add_review_alert_per_item _ _ _ 1 2 sample_world
                    H1 H2 H3 H4)).
  reflexivity.
Defined.

Lemma ratings_after_tasks (d : database) (user_id media_id : Z)
    (items : list review_item) :
  (forall item, In item items -> fst (fst item) <> media_id) ->
  ratings_of (after_tasks d user_id items) media_id = ratings_of d media_id.
Proof.
  intros Hother. unfold ratings_of, after_tasks. cbn [reviews].
  rewrite List.filter_app, map_app.
  assert (Hnone : List.filter (fun r => r_media_id r =? media_id)
                    (map (review_of user_id) items) = []).
  { induction items as [|[[m r] c] items IH]; [reflexivity|].
    cbn. destruct (Z.eqb_spec m media_id) as [Heq|_].
    - exfalso. apply (Hother (m, r, c)); [now left|exact Heq].
    - apply IH. intros item Hitem. apply Hother. now right. }
  rewrite Hnone. cbn. apply app_nil_r.
Qed.

(** X10: [add_review] does not look the media id up: an item whose media id is
    the id of no media row is written like any other once its transaction
    commits, and such reviews never show in the catalog, whose rows stay
    exactly as they were. *)
Theorem review_of_missing_media (schedule failed batch : list review_item)
    (user_id : Z) (w : world) (lim : option Z) :
  Permutation (schedule ++ failed) batch ->
  In user_id (map u_id (users (w_db w))) ->
  (forall item, In item batch ->
     ~ In (fst (fst item)) (map m_id (media (w_db w)))) ->
  let d' := w_db (snd (add_review schedule user_id batch w)) in
  reviews d' = reviews (w_db w) ++ map (review_of user_id) schedule /\
  catalog d' lim = catalog (w_db w) lim.
Proof.
  intros Hperm Hin Hmissing d'. subst d'.
  destruct (add_review_known_user schedule batch user_id w Hin) as [tr ->].
  cbn [snd w_db]. split; [reflexivity|].
  unfold catalog. cbn [after_tasks media].
  assert (Hgroups : map (catalog_group (after_tasks (w_db w) user_id schedule))
                      (media (w_db w)) =
                    map (catalog_group (w_db w)) (media (w_db w))).
  { apply map_ext_in. intros m Hm. unfold catalog_group.
    rewrite ratings_after_tasks; [reflexivity|].
    intros item Hitem Heq. apply (Hmissing item).
    - eapply Permutation_in; [exact Hperm|].
      apply in_or_app. now left.
    - rewrite Heq. now apply in_map. }
  change (media (after_tasks (w_db w) user_id schedule))
    with (media (w_db w)).
  now rewrite Hgroups.
Qed.

Lemma review_of_missing_media_witness :
  (Permutation ([(7, 5, "lost"%string)] ++ []) [(7, 5, "lost"%string)] /\
   In 1 (map u_id (users (w_db sample_world))) /\
   (forall item, In item [(7, 5, "lost"%string)] ->
      ~ In (fst (fst item)) (map m_id (media (w_db sample_world))))) /\
  reviews (w_db (snd (add_review [(7, 5, "lost"%string)] 1
                        [(7, 5, "lost"%string)] sample_world))) =
    [{| r_user_id := 1; r_media_id := 7; r_rating := 5;
        r_comment := "lost" |}] /\
  catalog (w_db (snd (add_review [(7, 5, "lost"%string)] 1
                        [(7, 5, "lost"%string)] sample_world))) None =
  catalog (w_db sample_world) None.
Proof.
  assert (H1 : Permutation ([(7, 5, "lost"%string)] ++ [])
                 [(7, 5, "lost"%string)])
    by apply Permutation_refl.
  assert (H2 : In 1 (map u_id (users (w_db sample_world))))
    by (cbn; left; reflexivity).
  assert (H3 : forall item, In item [(7, 5, "lost"%string)] ->
                 ~ In (fst (fst item)) (map m_id (media (w_db sample_world)))).
  { intros item [<-|[]]. cbn. intros [H|[H|[]]]; discriminate H. }
  split; [repeat split; assumption|].
  exact (review_of_missing_media _ _ _ 1 sample_world None H1 H2 H3).
Defined.

(** ** Removing a media item: [remove_media] *)

Lemma filter_none_keeps_all {A} (p : A -> bool) (l : list A) :
  List.filter p l = [] -> List.filter (fun x => negb (p x)) l = l.
Proof.
  induction l as [|x l IH]; [reflexivity|].
  cbn. destruct (p x); [discriminate|]. intros H. cbn. now rewrite IH.
Qed.

Lemma filter_id_none (id : Z) (ms : list media_row) :
  List.filter (fun m => m_id m =? id) ms = [] <-> ~ In id (map m_id ms).
Proof.
  induction ms as [|m ms IH]; [cbn; tauto|].
  cbn. destruct (Z.eqb_spec (m_id m) id) as [Heq|Hne].
  - split; [discriminate|]. intros H. exfalso. apply H. now left.
  - rewrite IH. tauto.
Qed.

Lemma filter_out_id (id : Z) (ms : list media_row) :
  ~ In id (map m_id (List.filter (fun m => negb (m_id m =? id)) ms)).
Proof.
  intros Hin. apply in_map_iff in Hin as (m & Heq & Hm).
  apply filter_In in Hm as [_ Hne].
  apply negb_true_iff, Z.eqb_neq in Hne. contradiction.
Qed.

Lemma remove_media_run (media_id : Z) (w : world) :
  remove_media media_id w =
    (Ok tt,
     {| w_db := with_media (w_db w)
                  (List.filter (fun m => negb (m_id m =? media_id))
                     (media (w_db w)));
        w_cache := w_cache w;
        w_trace := w_trace w ++
          [Print (match List.filter (fun m => m_id m =? media_id)
                          (media (w_db w)) with
                  | [] => "No media item found with ID " +:+
                          pretty media_id +:+ "."
                  | _ :: _ => "Media item with ID " +:+ pretty media_id +:+
                              " removed successfully."
                  end)] |}).
Proof.
  unfold remove_media, except_sqlite3_Error, delete_media,
    PRAGMA_foreign_keys, read_db, write_db, bind, ret.
  cbn [w_db w_cache w_trace].
  destruct (List.filter (fun m => m_id m =? media_id) (media (w_db w)))
    as [|m ms] eqn:E.
  - rewrite (filter_none_keeps_all _ _ E).
    unfold print, emit, with_media. cbn. destruct w as [[] c t]; reflexivity.
  - reflexivity.
Qed.

(** X11: [remove_media] never fails and deletes exactly the media rows with the
    given id: afterwards no row has that id, the other rows keep their
    order, and reviews and favorites that refer to the id stay in their
    tables.  It reports success when a row had the id and otherwise
    reports that none was found and changes nothing. *)
Theorem remove_media_effect (media_id : Z) (w : world) :
  let w' := snd (remove_media media_id w) in
  fst (remove_media media_id w) = Ok tt /\
  media (w_db w') =
    List.filter (fun m => negb (m_id m =? media_id)) (media (w_db w)) /\
  ~ In media_id (map m_id (media (w_db w'))) /\
  users (w_db w') = users (w_db w) /\
  reviews (w_db w') = reviews (w_db w) /\
  alerts (w_db w') = alerts (w_db w) /\
  favorites (w_db w') = favorites (w_db w) /\
  w_cache w' = w_cache w /\
  (In media_id (map m_id (media (w_db w))) ->
   w_trace w' = w_trace w ++
     [Print ("Media item with ID " +:+ pretty media_id +:+
             " removed successfully.")]) /\
  (~ In media_id (map m_id (media (w_db w))) ->
   w' = after_events w
          [Print ("No media item found with ID " +:+ pretty media_id +:+ ".")]).
Proof.
  intros w'. subst w'. rewrite remove_media_run.
  cbn [fst snd w_db w_cache w_trace with_media media users reviews alerts
       favorites].
  repeat split; try reflexivity.
  - apply filter_out_id.
  - intros Hin.
    destruct (List.filter (fun m => m_id m =? media_id) (media (w_db w)))
      eqn:E; [|reflexivity].
    apply filter_id_none in E. contradiction.
  - intros Hnot. apply filter_id_none in Hnot.
    rewrite Hnot, (filter_none_keeps_all _ _ Hnot).
    unfold after_events, with_media. destruct w as [[] c t]; reflexivity.
Qed.

Lemma remove_media_effect_witness :
  In 1 (map m_id (media (w_db owner_world))) /\
  ~ In 9 (map m_id (media (w_db owner_world))) /\
  w_trace (snd (remove_media 1 owner_world)) =
    [Print "Media item with ID 1 removed successfully."] /\
  reviews (w_db (snd (remove_media 1 owner_world))) = reviews owner_db /\
  snd (remove_media 9 owner_world) =
    after_events owner_world [Print "No media item found with ID 9."].
Proof.
  assert (H1 : In 1 (map m_id (media (w_db owner_world))))
    by (cbn; left; reflexivity).
  assert (H2 : ~ In 9 (map m_id (media (w_db owner_world))))
    by (cbn; intros [H|[]]; discriminate H).
  destruct (remove_media_effect 1 owner_world)
    as (_ & _ & _ & _ & Hrev & _ & _ & _ & Hyes & _).
  destruct (remove_media_effect 9 owner_world)
    as (_ & _ & _ & _ & _ & _ & _ & _ & _ & Hno).
  split; [exact H1|]. split; [exact H2|]. split; [exact (Hyes H1)|].
  split; [exact Hrev|exact (Hno H2)].
Defined.



(** X13: In the catalog, removing a media item takes its row away and leaves
    every other row, average included, as it was. *)
Theorem remove_media_catalog (media_id : Z) (w : world) :
  catalog (w_db (snd (remove_media media_id w))) None =
  List.filter (fun r : catalog_row => negb (fst (fst (fst r)) =? media_id))
    (catalog (w_db w) None).
Proof.
  rewrite remove_media_run. cbn [snd w_db]. unfold catalog.
  cbn [with_media media].
  rewrite (map_ext (catalog_group (with_media (w_db w) _))
             (catalog_group (w_db w))) by reflexivity.
  induction (media (w_db w)) as [|m ms IH]; [reflexivity|].
  cbn [List.filter map].
  change (fst (fst (fst (catalog_group (w_db w) m)))) with (m_id m).
  destruct (negb (m_id m =? media_id)); cbn [map]; now rewrite IH.
Qed.

(** ** Users: [add_user], [remove_user], [list_users] *)

Lemma username_taken (username : string) (us : list user_row) :
  existsb (fun u => String.eqb (u_username u) username) us = true <->
  In username (map u_username us).
Proof.
  rewrite existsb_exists, in_map_iff. split.
  - intros (u & Hu & Heq). apply String.eqb_eq in Heq. now exists u.
  - intros (u & Heq & Hu). exists u. split; [exact Hu|].
    now apply String.eqb_eq.
Qed.

Lemma add_user_taken (rowid : Z) (username password : string) (w : world) :
  In username (map u_username (users (w_db w))) ->
  add_user rowid username password w =
    (Raise (IntegrityError "UNIQUE constraint failed: users.username"), w).
Proof.
  intros Htaken. apply username_taken in Htaken.
  unfold add_user, insert_user, read_db, bind, raise. cbn [w_db].
  now rewrite Htaken.
Qed.

Lemma add_user_fresh (rowid : Z) (username password : string) (w : world) :
  ~ In username (map u_username (users (w_db w))) ->
  add_user rowid username password w =
    (Ok tt,
     {| w_db := with_users (w_db w)
                  (users (w_db w) ++
                   [{| u_id := rowid; u_username := username;
                       u_password := password |}]);
        w_cache := w_cache w;
        w_trace := w_trace w ++ [Print "User added successfully!"] |}).
Proof.
  intros Hfree.
  unfold add_user, insert_user, read_db, write_db, bind, raise. cbn [w_db].
  destruct (existsb _ (users (w_db w))) eqn:E.
  - apply username_taken in E. contradiction.
  - reflexivity.
Qed.

(** X14: [add_user] has no handler around its [INSERT]: for a username that is
    taken the call ends in the store's [IntegrityError], with nothing
    written and nothing printed; for a new username the row is appended
    under the id the engine assigned and the success line is printed. *)
Theorem add_user_effect (rowid : Z) (username password : string) (w : world) :
  (In username (map u_username (users (w_db w))) ->
   add_user rowid username password w =
     (Raise (IntegrityError "UNIQUE constraint failed: users.username"), w)) /\
  (~ In username (map u_username (users (w_db w))) ->
   add_user rowid username password w =
     (Ok tt,
      {| w_db :=
           {| users := users (w_db w) ++
                [{| u_id := rowid; u_username := username;
                    u_password := password |}];
              media := media (w_db w); reviews := reviews (w_db w);
              alerts := alerts (w_db w); favorites := favorites (w_db w) |};
         w_cache := w_cache w;
         w_trace := w_trace w ++ [Print "User added successfully!"] |})).
Proof.
  split.
  - apply add_user_taken.
  - apply add_user_fresh.
Qed.

Lemma add_user_effect_witness :
  (In "alice"%string (map u_username (users (w_db sample_world))) /\
   ~ In "carol"%string (map u_username (users (w_db sample_world)))) /\
  add_user 3 "alice" "secret" sample_world =
    (Raise (IntegrityError "UNIQUE constraint failed: users.username"),
     sample_world) /\
  users (w_db (snd (add_user 3 "carol" "secret" sample_world))) =
    [alice; bob;
     {| u_id := 3; u_username := "carol"; u_password := "secret" |}].
Proof.
  assert (H1 : In "alice"%string (map u_username (users (w_db sample_world))))
    by (cbn; left; reflexivity).
  assert (H2 : ~ In "carol"%string
                 (map u_username (users (w_db sample_world))))
    by (cbn; intros [H|[H|[]]]; discriminate H).
  split; [split; assumption|]. split.
  - exact (proj1 (add_user_effect 3 "alice" "secret" sample_world) H1).
  - rewrite (proj2 (add_user_effect 3 "carol" "secret" sample_world) H2).
    reflexivity.
Defined.

(** X15: The keys of the users table stay unique across [add_user]: the
    usernames always, the ids when the engine's id is above the ids of the
    table. *)
Theorem add_user_keeps_keys_unique (rowid : Z) (username password : string)
    (w : world) :
  (unique_usernames (w_db w) ->
   unique_usernames (w_db (snd (add_user rowid username password w)))) /\
  (unique_user_ids (w_db w) ->
   (forall u, In u (users (w_db w)) -> u_id u < rowid) ->
   unique_user_ids (w_db (snd (add_user rowid username password w)))).
Proof.
  unfold unique_usernames, unique_user_ids.
  destruct (in_dec_string username (map u_username (users (w_db w))))
    as [Htaken|Hfree].
  - rewrite (add_user_taken rowid username password w Htaken).
    split; [tauto|]. intros H _. exact H.
  - rewrite (add_user_fresh rowid username password w Hfree).
    cbn [snd w_db users with_users]. rewrite !map_app.
    cbn [map u_username u_id]. split.
    + intros Huniq. apply NoDup_app. split; [exact Huniq|].
      split; [|apply NoDup_singleton].
      intros x Hx Hx'. apply list_elem_of_In in Hx.
      apply list_elem_of_In in Hx'. destruct Hx' as [<-|[]]. contradiction.
    + intros Huniq Habove. apply NoDup_app. split; [exact Huniq|].
      split; [|apply NoDup_singleton].
      intros x Hx Hx'. apply list_elem_of_In in Hx.
      apply list_elem_of_In in Hx'. destruct Hx' as [<-|[]].
      apply in_map_iff in Hx as (u & Hid & Hu).
      specialize (Habove u Hu). lia.
Qed.

Lemma sample_users_unique :
  unique_usernames sample_db /\ unique_user_ids sample_db.
Proof.
  unfold unique_usernames, unique_user_ids. cbn. split.
  - apply NoDup_cons. split; [|apply NoDup_singleton].
    intros H. apply list_elem_of_In in H. destruct H as [H|[]]. discriminate H.
  - apply NoDup_cons. split; [|apply NoDup_singleton].
    intros H. apply list_elem_of_In in H. destruct H as [H|[]]. discriminate H.
Qed.

Lemma add_user_keeps_keys_unique_witness :
  (unique_usernames (w_db sample_world) /\
   unique_user_ids (w_db sample_world) /\
   (forall u, In u (users (w_db sample_world)) -> u_id u < 3)) /\
  unique_usernames (w_db (snd (add_user 3 "carol" "pw" sample_world))) /\
  unique_user_ids (w_db (snd (add_user 3 "carol" "pw" sample_world))).
Proof.
  destruct sample_users_unique as [H1 H2].
  assert (H3 : forall u, In u (users (w_db sample_world)) -> u_id u < 3).
  { cbn. intros u [<-|[<-|[]]]; cbn; lia. }
  split; [repeat split; assumption|].
  destruct (add_user_keeps_keys_unique 3 "carol" "pw" sample_world)
    as [Hn Hi].
  split; [exact (Hn H1)|exact (Hi H2 H3)].
Defined.

(** X16: A user who has just been added is accepted by [add_review]: a batch
    submitted under the new id is not refused, every item whose transaction
    commits is written as a row of that user, and no other row is added. *)
Theorem add_user_then_review (rowid : Z) (username password : string)
    (schedule failed batch : list review_item) (w : world) :
  ~ In username (map u_username (users (w_db w))) ->
  Permutation (schedule ++ failed) batch ->
  let w1 := snd (add_user rowid username password w) in
  let w2 := snd (add_review schedule rowid batch w1) in
  fst (add_review schedule rowid batch w1) = Ok tt /\
  reviews (w_db w2) = reviews (w_db w) ++ map (review_of rowid) schedule /\
  (forall r, In r (reviews (w_db w2)) ->
     In r (reviews (w_db w)) \/ r_user_id r = rowid).
Proof.
  intros Hfree Hperm w1 w2. subst w2 w1.
  rewrite (add_user_fresh rowid username password w Hfree). cbn [snd].
  match goal with |- context [add_review schedule rowid batch ?w1] =>
    assert (Hin : In rowid (map u_id (users (w_db w1))));
    [cbn; rewrite map_app; apply in_or_app; right; now left|];
    destruct (add_review_known_user schedule batch rowid w1 Hin) as [tr ->]
  end.
  cbn [fst snd w_db after_tasks reviews with_users].
  split; [reflexivity|]. split; [reflexivity|].
  intros r Hr. apply in_app_or in Hr as [Hr|Hr]; [now left|right].
  apply in_map_iff in Hr as ([[m x] c] & <- & _). reflexivity.
Qed.

Lemma add_user_then_review_witness :
  (~ In "carol"%string (map u_username (users (w_db sample_world))) /\
   Permutation ([(1, 5, "fine"%string)] ++ []) [(1, 5, "fine"%string)]) /\
  reviews (w_db (snd (add_review [(1, 5, "fine"%string)] 3
                        [(1, 5, "fine"%string)]
                        (snd (add_user 3 "carol" "pw" sample_world))))) =
    [{| r_user_id := 3; r_media_id := 1; r_rating := 5;
        r_comment := "fine" |}].
Proof.
  assert (H1 : ~ In "carol"%string
                 (map u_username (users (w_db sample_world))))
    by (cbn; intros [H|[H|[]]]; discriminate H).
  assert (H2 : Permutation ([(1, 5, "fine"%string)] ++ [])
                 [(1, 5, "fine"%string)])
    by apply Permutation_refl.
  split; [split; assumption|].
  exact (proj1 (proj2 (add_user_then_review 3 "carol" "pw" _ _ _ sample_world
                         H1 H2))).
Defined.

Lemma filter_user_none (id : Z) (us : list user_row) :
  List.filter (fun u => u_id u =? id) us = [] <-> ~ In id (map u_id us).
Proof.
  induction us as [|u us IH]; [cbn; tauto|].
  cbn. destruct (Z.eqb_spec (u_id u) id) as [Heq|Hne].
  - split; [discriminate|]. intros H. exfalso. apply H. now left.
  - rewrite IH. tauto.
Qed.

Lemma remove_user_run (user_id : Z) (w : world) :
  remove_user user_id w =
    (Ok tt,
     {| w_db := with_users (w_db w)
                  (List.filter (fun u => negb (u_id u =? user_id))
                     (users (w_db w)));
        w_cache := w_cache w;
        w_trace := w_trace w ++
          [Execute (DeleteUser user_id);
           Print (match List.filter (fun u => u_id u =? user_id)
                          (users (w_db w)) with
                  | [] => "No user found with ID " +:+ pretty user_id +:+ "."
                  | _ :: _ => "User with ID " +:+ pretty user_id +:+
                              " removed successfully."
                  end)] |}).
Proof.
  unfold remove_user, except_sqlite3_Error, delete_user,
    PRAGMA_foreign_keys, execute, emit, read_db, write_db, bind, ret.
  cbn [w_db w_cache w_trace].
  destruct (List.filter (fun u => u_id u =? user_id) (users (w_db w)))
    as [|u us] eqn:E.
  - rewrite (filter_none_keeps_all _ _ E).
    unfold print, emit, with_users. cbn. rewrite <- app_assoc.
    destruct w as [[] c t]; reflexivity.
  - unfold print, emit, with_users. cbn. rewrite <- app_assoc. reflexivity.
Qed.

(** X17: [remove_user] never fails and deletes exactly the user rows with the
    given id, so that afterwards no user has that id; for an id that no
    user has it changes nothing in the store and reports that no user was
    found. *)
Theorem remove_user_effect (user_id : Z) (w : world) :
  let w' := snd (remove_user user_id w) in
  fst (remove_user user_id w) = Ok tt /\
  users (w_db w') =
    List.filter (fun u => negb (u_id u =? user_id)) (users (w_db w)) /\
  ~ In user_id (map u_id (users (w_db w'))) /\
  media (w_db w') = media (w_db w) /\
  w_cache w' = w_cache w /\
  (~ In user_id (map u_id (users (w_db w))) ->
   w' = after_events w
          [Execute (DeleteUser user_id);
           Print ("No user found with ID " +:+ pretty user_id +:+ ".")]).
Proof.
  intros w'. subst w'. rewrite remove_user_run.
  cbn [fst snd w_db w_cache w_trace with_users media users].
  repeat split; try reflexivity.
  - intros Hin. apply in_map_iff in Hin as (u & Heq & Hu).
    apply filter_In in Hu as [_ Hne].
    apply negb_true_iff, Z.eqb_neq in Hne. contradiction.
  - intros Hnot. apply filter_user_none in Hnot.
    rewrite Hnot, (filter_none_keeps_all _ _ Hnot).
    unfold after_events, with_users. destruct w as [[] c t]; reflexivity.
Qed.

Lemma remove_user_effect_witness :
  ~ In 9 (map u_id (users (w_db sample_world))) /\
  snd (remove_user 9 sample_world) =
    after_events sample_world
      [Execute (DeleteUser 9); Print "No user found with ID 9."].
Proof.
  assert (H : ~ In 9 (map u_id (users (w_db sample_world))))
    by (cbn; intros [H|[H|[]]]; discriminate H).
  split; [exact H|].
  destruct (remove_user_effect 9 sample_world) as (_ & _ & _ & _ & _ & Hno).
  exact (Hno H).
Defined.



(** X19: Once a user has been removed, a batch submitted under that id is
    refused with the invalid-user message and writes nothing, while the
    reviews the user wrote before are still in the store. *)
Theorem remove_user_then_review (schedule batch : list review_item)
    (user_id : Z) (w : world) :
  let w1 := snd (remove_user user_id w) in
  add_review schedule user_id batch w1 =
    (Ok tt,
     after_events w1
       [Execute (SelectUserById user_id);
        Print "Invalid user ID. Review submission failed."]) /\
  reviews (w_db w1) = reviews (w_db w).
Proof.
  intros w1. subst w1. rewrite remove_user_run. cbn [snd]. split.
  - unfold add_review. unfold bind at 1.
    rewrite select_unknown_user;
      [unfold print, emit, after_events; cbn [w_db w_cache w_trace];
       now rewrite <- app_assoc|].
    cbn [w_db with_users users].
    intros Hin. apply in_map_iff in Hin as (u & Heq & Hu).
    apply filter_In in Hu as [_ Hne].
    apply negb_true_iff, Z.eqb_neq in Hne. contradiction.
  - reflexivity.
Qed.

Lemma select_users_run (w : world) :
  select_users w = (Ok (index_scan username_leb (users (w_db w))), w).
Proof. reflexivity. Qed.

(** The rows come from the index of the usernames, not in the order of the
    ids: bob, added first, is listed after alice. *)
Example list_users_by_username :
  list_users
    {| w_db := with_users sample_db
                 [{| u_id := 1; u_username := "bob"; u_password := "pw" |};
                  {| u_id := 2; u_username := "alice"; u_password := "pw" |}];
       w_cache := {| reachable := true; entries := ∅ |};
       w_trace := [] |} =
    (Ok tt,
     {| w_db := with_users sample_db
                  [{| u_id := 1; u_username := "bob"; u_password := "pw" |};
                   {| u_id := 2; u_username := "alice"; u_password := "pw" |}];
        w_cache := {| reachable := true; entries := ∅ |};
        w_trace := [Print "User IDs and Usernames:";
                    Print "ID: 2, Username: alice";
                    Print "ID: 1, Username: bob"] |}).
Proof. reflexivity. Qed.

(** X20: [list_users] reads the users table and nothing else: it changes neither
    store nor cache, and prints the header and one line per user, the users
    in ascending order of their usernames compared byte by byte, or the
    line for an empty table. *)
Theorem list_users_output (w : world) :
  exists rows,
    Permutation rows (users (w_db w)) /\
    Sorted (fun a b => String.leb (u_username a) (u_username b) = true) rows /\
    list_users w =
      (Ok tt,
       after_events w
         (match rows with
          | [] => [Print "No users found in the database."]
          | _ :: _ =>
              Print "User IDs and Usernames:" ::
              map (fun user => Print (user_line user)) rows
          end)).
Proof.
  exists (index_scan username_leb (users (w_db w))).
  split; [apply index_scan_perm|]. split.
  - apply (index_scan_sorted username_leb).
    intros a b. apply String.leb_total.
  - unfold list_users. unfold bind at 1. rewrite select_users_run.
    destruct (index_scan username_leb (users (w_db w))) as [|u us] eqn:E;
      [reflexivity|].
    unfold bind. unfold print at 1, emit at 1.
    rewrite (for_each_print user_line).
    unfold after_events. cbn [w_db w_cache w_trace].
    rewrite <- app_assoc. reflexivity.
Qed.

(** ** Reading alerts: [get_alerts] *)

Lemma get_alerts_run (user_id : Z) (w : world) :
  get_alerts user_id w =
    (Ok tt,
     after_events w
       (match alerts_of user_id (alerts (w_db w)) with
        | [] => [Print "No new alerts."]
        | _ :: _ =>
            Print "Your Alerts:" ::
            map (fun a => Print ("- " +:+ a_alert a))
              (alerts_of user_id (alerts (w_db w)))
        end)).
Proof.
  unfold get_alerts, select_alerts, read_db, bind, ret. cbn [w_db].
  fold (alerts_of user_id (alerts (w_db w))).
  destruct (alerts_of user_id (alerts (w_db w))) as [|a found] eqn:E;
    [reflexivity|].
  cbn [map]. unfold print at 1, emit at 1.
  rewrite (for_each_print (fun alert => "- " +:+ alert)).
  unfold after_events. cbn [w_db w_cache w_trace map].
  rewrite <- app_assoc, map_map. reflexivity.
Qed.

(** X21: Alerts are never cleared: reading them changes nothing, so a second
    [get_alerts] prints the same lines as the first, and it still prints
    them after the user has been removed. *)
Theorem alerts_are_never_cleared (user_id : Z) (w : world) :
  exists lines,
    lines <> [] /\
    get_alerts user_id w = (Ok tt, after_events w lines) /\
    get_alerts user_id (after_events w lines) =
      (Ok tt, after_events (after_events w lines) lines) /\
    w_trace (snd (get_alerts user_id (snd (remove_user user_id w)))) =
      w_trace (snd (remove_user user_id w)) ++ lines.
Proof.
  eexists. split; [|split; [apply get_alerts_run|split]].
  - destruct (alerts_of user_id (alerts (w_db w))); discriminate.
  - rewrite get_alerts_run. reflexivity.
  - rewrite get_alerts_run, remove_user_run. reflexivity.
Qed.

Lemma alert_is_created (d : database) (A B M : Z) (items : list review_item) :
  B <> A ->
  In {| f_user_id := B; f_media_id := M |} (favorites d) ->
  (exists r c, In (M, r, c) items) ->
  In (alert_to A M B) (batch_alerts d A items).
Proof.
  intros Hne Hfav (r & c & Hitem). unfold batch_alerts.
  apply in_flat_map. exists (M, r, c). split; [exact Hitem|].
  unfold item_alerts, recipients. cbn [fst]. apply in_map.
  apply filter_In. split.
  - apply in_map_iff. exists {| f_user_id := B; f_media_id := M |}.
    split; [reflexivity|]. apply filter_In.
    split; [now apply index_scan_In|].
    cbn. apply Z.eqb_refl.
  - apply negb_true_iff, Z.eqb_neq. exact Hne.
Qed.

(** X22: The alert a review raises reaches its reader: when the review by [A]
    of a media item that another user [B] has favorited has been committed,
    as the one review of a batch of one always is, [get_alerts] for [B]
    prints the header and the line of that review. *)
Theorem review_alert_is_shown (schedule failed batch : list review_item)
    (A B M : Z) (w : world) :
  Permutation (schedule ++ failed) batch ->
  In A (map u_id (users (w_db w))) ->
  favorited (w_db w) B M ->
  B <> A ->
  (exists r c, In (M, r, c) schedule) ->
  let w1 := snd (add_review schedule A batch w) in
  In (Print "Your Alerts:") (w_trace (snd (get_alerts B w1))) /\
  In (Print ("- User " +:+ pretty A +:+ " added a review for media ID " +:+
             pretty M +:+ "."))
     (w_trace (snd (get_alerts B w1))).
Proof.
  intros _ Hin Hfav Hne Hitem w1. subst w1.
  destruct (add_review_known_user schedule batch A w Hin) as [tr ->].
  rewrite get_alerts_run. cbn [snd w_db w_trace after_events after_tasks alerts].
  assert (Hcreated : In (alert_to A M B)
                       (alerts_of B (alerts (w_db w) ++
                                     batch_alerts (w_db w) A schedule))).
  { unfold alerts_of. apply filter_In. split.
    - apply in_or_app. right.
      apply alert_is_created; [exact Hne|exact Hfav|exact Hitem].
    - cbn. apply Z.eqb_refl. }
  destruct (alerts_of B (alerts (w_db w) ++ batch_alerts (w_db w) A schedule))
    as [|a found] eqn:E; [destruct Hcreated|].
  split.
  - apply in_or_app. right. now left.
  - apply in_or_app. right. right.
    change (Print ("- User " +:+ pretty A +:+
                   " added a review for media ID " +:+ pretty M +:+ "."))
      with ((fun a => Print ("- " +:+ a_alert a)) (alert_to A M B)).
    now apply in_map.
Qed.

Lemma review_alert_is_shown_witness :
  (Permutation ([(1, 5, "fine"%string)] ++ []) [(1, 5, "fine"%string)] /\
   In 1 (map u_id (users (w_db sample_world))) /\
   favorited (w_db sample_world) 2 1 /\ 2 <> 1 /\
   (exists r c, In (1, r, c) [(1, 5, "fine"%string)])) /\
  In (Print "- User 1 added a review for media ID 1.")
     (w_trace (snd (get_alerts 2
                      (snd (add_review [(1, 5, "fine"%string)] 1
                              [(1, 5, "fine"%string)] sample_world))))).
Proof.
  assert (H1 : Permutation ([(1, 5, "fine"%string)] ++ [])
                 [(1, 5, "fine"%string)])
    by apply Permutation_refl.
  assert (H2 : In 1 (map u_id (users (w_db sample_world))))
    by (cbn; left; reflexivity).
  assert (H3 : favorited (w_db sample_world) 2 1) by (left; reflexivity).
  assert (H4 : 2 <> 1) by lia.
  assert (H5 : exists r c, In (1, r, c) [(1, 5, "fine"%string)])
    by (exists 5, "fine"%string; left; reflexivity).
  split; [repeat split; assumption|].
  exact (proj2 (review_alert_is_shown _ _ _ 1 2 1 sample_world
                  H1 H2 H3 H4 H5)).
Defined.

(** ** Searching the catalog: [search_media] *)

Lemma like_percent (pattern text : string) :
  like (String "%" pattern) text =
    like pattern text ||
    match text with
    | EmptyString => false
    | String _ text' => like (String "%" pattern) text'
    end.
Proof. destruct text; reflexivity. Qed.

Lemma like_other (p : ascii) (pattern text : string) :
  Ascii.eqb p "%" = false ->
  like (String p pattern) text =
    match text with
    | EmptyString => false
    | String c text' =>
        (Ascii.eqb p "_" || eq_nocase p c) && like pattern text'
    end.
Proof. intros H. cbn [like]. now rewrite H. Qed.

Lemma like_any (text : string) : like "%" text = true.
Proof.
  induction text as [|c text IH]; [reflexivity|].
  rewrite like_percent, IH. apply orb_true_r.
Qed.

Lemma append_nil (s : string) : ("" +:+ s)%string = s.
Proof. reflexivity. Qed.

Lemma append_cons (c : ascii) (s t : string) :
  (String c s +:+ t)%string = String c (s +:+ t).
Proof. reflexivity. Qed.

Lemma like_skip (pattern before text : string) :
  like pattern text = true ->
  like (String "%" pattern) (before +:+ text) = true.
Proof.
  intros H. induction before as [|c before IH].
  - rewrite append_nil, like_percent, H. reflexivity.
  - rewrite append_cons, like_percent, IH. apply orb_true_r.
Qed.

Lemma like_literal (term found pattern text : string) :
  lower found = lower term ->
  like pattern text = true ->
  like (term +:+ pattern) (found +:+ text) = true.
Proof.
  revert found. induction term as [|c term IH]; intros found Hlower Hrest.
  - destruct found; [exact Hrest|discriminate].
  - destruct found as [|c' found]; [discriminate|].
    cbn [lower] in Hlower. injection Hlower as Hc Hlower.
    specialize (IH found Hlower Hrest).
    rewrite !append_cons.
    destruct (Ascii.eqb c "%") eqn:E.
    + apply Ascii.eqb_eq in E. subst c.
      rewrite like_percent. apply orb_true_iff. right.
      rewrite like_percent, IH. reflexivity.
    + rewrite (like_other _ _ _ E). apply andb_true_iff. split; [|exact IH].
      apply orb_true_iff. right. unfold eq_nocase.
      apply Ascii.eqb_eq. now symmetry.
Qed.

Lemma like_contains (term text : string) :
  contains_nocase text term -> like ("%" +:+ term +:+ "%") text = true.
Proof.
  intros (before & found & after & -> & Hlower).
  change ("%" +:+ term +:+ "%")%string with (String "%" (term +:+ "%")).
  apply like_skip. apply like_literal; [exact Hlower|apply like_any].
Qed.

Lemma like_percent_inv (pattern text : string) :
  like (String "%" pattern) text = true ->
  exists before rest, text = before +:+ rest /\ like pattern rest = true.
Proof.
  induction text as [|c text IH]; rewrite like_percent; intros H.
  - rewrite orb_false_r in H. now exists ""%string, ""%string.
  - apply orb_true_iff in H as [H|H].
    + now exists ""%string, (String c text).
    + destruct (IH H) as (before & rest & -> & Hrest).
      now exists (String c before), rest.
Qed.

Lemma like_literal_inv (term text : string) :
  wildcard_free term = true ->
  like (term +:+ "%") text = true ->
  exists found after, text = found +:+ after /\ lower found = lower term.
Proof.
  revert text. induction term as [|c term IH]; intros text Hfree Hlike.
  - now exists ""%string, text.
  - cbn [wildcard_free] in Hfree.
    apply andb_true_iff in Hfree as [Hc Hfree].
    apply andb_true_iff in Hc as [Hpercent Hunder].
    apply negb_true_iff in Hpercent. apply negb_true_iff in Hunder.
    rewrite append_cons, (like_other _ _ _ Hpercent) in Hlike.
    destruct text as [|c' text]; [discriminate|].
    apply andb_true_iff in Hlike as [Hchar Hlike].
    rewrite Hunder, orb_false_l in Hchar.
    unfold eq_nocase in Hchar. apply Ascii.eqb_eq in Hchar.
    destruct (IH text Hfree Hlike) as (found & after & -> & Hlower).
    exists (String c' found), after. split; [reflexivity|].
    cbn [lower]. now rewrite Hlower, Hchar.
Qed.

Lemma like_only_contains (term text : string) :
  wildcard_free term = true ->
  like ("%" +:+ term +:+ "%") text = true ->
  contains_nocase text term.
Proof.
  intros Hfree Hlike.
  change ("%" +:+ term +:+ "%")%string with (String "%" (term +:+ "%"))
    in Hlike.
  apply like_percent_inv in Hlike as (before & rest & -> & Hrest).
  apply (like_literal_inv term rest Hfree) in Hrest
    as (found & after & -> & Hlower).
  now exists before, found, after.
Qed.

Lemma like_all_percent (term text : string) :
  all_percent term = true -> like ("%" +:+ term +:+ "%") text = true.
Proof.
  intros Hall.
  change ("%" +:+ term +:+ "%")%string with (String "%" (term +:+ "%")).
  assert (H : forall t, like (term +:+ "%") t = true).
  { induction term as [|c term IH]; intros t; [apply like_any|].
    cbn [all_percent] in Hall. apply andb_true_iff in Hall as [Hc Hall].
    apply Ascii.eqb_eq in Hc. subst c.
    rewrite append_cons, like_percent, (IH Hall). reflexivity. }
  rewrite like_percent, H. reflexivity.
Qed.

Lemma search_media_run (term : string) (w : world) :
  search_media term w =
    (Ok tt,
     after_events w
       (match List.filter (fun m => like ("%" +:+ term +:+ "%") (m_title m))
                (media (w_db w)) with
        | [] => [Print "No matching media found in the database"]
        | _ :: _ =>
            map (fun row => Print (search_line row))
              (List.filter (fun m => like ("%" +:+ term +:+ "%") (m_title m))
                 (media (w_db w)))
        end)).
Proof.
  unfold search_media, select_media_like, read_db, bind, ret. cbn [w_db].
  destruct (List.filter _ (media (w_db w))) as [|m found] eqn:E;
    [reflexivity|].
  apply (for_each_print search_line).
Qed.

(** X23: [search_media] finds every media item whose title contains the search
    text, whatever the case of the ASCII letters on either side: the line
    of the item is printed.  The search changes neither store nor cache. *)
Theorem search_media_finds (term : string) (m : media_row) (w : world) :
  In m (media (w_db w)) ->
  contains_nocase (m_title m) term ->
  In (Print (search_line m)) (w_trace (snd (search_media term w))) /\
  w_db (snd (search_media term w)) = w_db w /\
  w_cache (snd (search_media term w)) = w_cache w.
Proof.
  intros Hin Hcontains. rewrite search_media_run.
  cbn [snd after_events w_db w_cache w_trace].
  split; [|split; reflexivity].
  assert (Hfound : In m (List.filter
                           (fun m => like ("%" +:+ term +:+ "%") (m_title m))
                           (media (w_db w)))).
  { apply filter_In. split; [exact Hin|]. now apply like_contains. }
  destruct (List.filter _ (media (w_db w))) as [|m0 found] eqn:E;
    [destruct Hfound|].
  apply in_or_app. right.
  exact (in_map (fun row => Print (search_line row)) _ _ Hfound).
Qed.

Lemma search_media_finds_witness :
  (In heat (media (w_db sample_world)) /\
   contains_nocase (m_title heat) "EA") /\
  In (Print "ID: 1, Title: Heat, Type: Movie")
     (w_trace (snd (search_media "EA" sample_world))).
Proof.
  assert (H1 : In heat (media (w_db sample_world))) by (left; reflexivity).
  assert (H2 : contains_nocase (m_title heat) "EA").
  { exists "H"%string, "ea"%string, "t"%string. split; reflexivity. }
  split; [split; assumption|].
  exact (proj1 (search_media_finds "EA" heat sample_world H1 H2)).
Defined.

Lemma filter_sublist {A} (p : A -> bool) (l : list A) :
  sublist (List.filter p l) l.
Proof.
  induction l as [|x l IH]; cbn [List.filter]; [constructor|].
  destruct (p x); [now apply sublist_skip|now apply sublist_cons].
Qed.

(** X24: For a search text without the wildcards [%] and [_], [search_media]
    prints the lines of exactly the media items whose title contains the
    text up to ASCII case, in the order of the table, and the no-match line
    when there is none. *)
Theorem search_media_plain_term (term : string) (w : world) :
  wildcard_free term = true ->
  exists found,
    search_media term w =
      (Ok tt,
       after_events w
         (match found with
          | [] => [Print "No matching media found in the database"]
          | _ :: _ => map (fun row => Print (search_line row)) found
          end)) /\
    (forall m, In m found <->
               In m (media (w_db w)) /\ contains_nocase (m_title m) term) /\
    sublist found (media (w_db w)).
Proof.
  intros Hfree.
  exists (List.filter (fun m => like ("%" +:+ term +:+ "%") (m_title m))
            (media (w_db w))).
  split; [apply search_media_run|]. split; [|apply filter_sublist].
  intros m. rewrite filter_In. split.
  - intros [Hin Hlike]. split; [exact Hin|]. now apply like_only_contains.
  - intros [Hin Hcontains]. split; [exact Hin|]. now apply like_contains.
Qed.

Lemma search_media_plain_term_witness :
  wildcard_free "dark" = true /\
  exists found,
    search_media "dark" sample_world =
      (Ok tt,
       after_events sample_world
         (match found with
          | [] => [Print "No matching media found in the database"]
          | _ :: _ => map (fun row => Print (search_line row)) found
          end)) /\
    (In dark found <->
     In dark (media (w_db sample_world)) /\
     contains_nocase (m_title dark) "dark").
Proof.
  assert (H : wildcard_free "dark" = true) by reflexivity.
  split; [exact H|].
  destruct (search_media_plain_term "dark" sample_world H)
    as (found & Hrun & Hiff & _).
  exists found. split; [exact Hrun|apply Hiff].
Defined.

(** X25: A search text made of [%] signs only, the empty text included, selects
    every media item: the whole table is printed. *)
Theorem search_media_percent_term (term : string) (w : world) :
  all_percent term = true ->
  search_media term w =
    (Ok tt,
     after_events w
       (match media (w_db w) with
        | [] => [Print "No matching media found in the database"]
        | _ :: _ => map (fun row => Print (search_line row)) (media (w_db w))
        end)).
Proof.
  intros Hall. rewrite search_media_run.
  assert (Hsel : List.filter
                   (fun m => like ("%" +:+ term +:+ "%") (m_title m))
                   (media (w_db w)) = media (w_db w)).
  { induction (media (w_db w)) as [|m ms IH]; [reflexivity|].
    cbn [List.filter]. rewrite (like_all_percent term (m_title m) Hall).
    now rewrite IH. }
  rewrite Hsel. reflexivity.
Qed.

Lemma search_media_percent_term_witness :
  all_percent "" = true /\
  w_trace (snd (search_media "" sample_world)) =
    [Print "ID: 1, Title: Heat, Type: Movie";
     Print "ID: 2, Title: Dark, Type: WebShow"].
Proof.
  assert (H : all_percent "" = true) by reflexivity.
  split; [exact H|].
  rewrite (search_media_percent_term "" sample_world H). reflexivity.
Defined.

(** ** The command line: [main] *)

Section CommandLineProperties.

Variable tabulate : list table_row -> string.
Variable py_int : string -> Z + string.
Variable get_top_rated : M unit.
Variable recommend_media : Z -> M unit.
Variable rowid : Z.

Lemma zero_is_falsy (o : option Z) :
  o = None \/ o = Some 0 -> truthy_int o = None.
Proof. intros [->| ->]; reflexivity. Qed.

Lemma empty_is_falsy (o : option string) :
  o = None \/ o = Some ""%string -> truthy_text o = None.
Proof. intros [->| ->]; reflexivity. Qed.

(** X26: The commands are chosen by the truth value of their option, so the id 0
    and the empty search text count as an option that was not given: a
    command line whose only options are [--remove-media 0],
    [--recommend 0], [--remove-user 0], [--alerts 0] or [--search ""] runs
    no command at all and prints nothing. *)
Theorem main_ignores_zero_ids (a : arguments) (w : world) :
  arg_review a = None -> arg_list a = false -> arg_add_media a = None ->
  arg_top_rated a = false -> arg_add_user a = None ->
  arg_favorite a = None -> arg_list_users a = false ->
  (arg_remove_media a = None \/ arg_remove_media a = Some 0) ->
  (arg_search a = None \/ arg_search a = Some ""%string) ->
  (arg_recommend a = None \/ arg_recommend a = Some 0) ->
  (arg_remove_user a = None \/ arg_remove_user a = Some 0) ->
  (arg_alerts a = None \/ arg_alerts a = Some 0) ->
  main tabulate py_int get_top_rated recommend_media rowid a w = (Ok tt, w).
Proof.
  intros Hreview Hlist Hadd Htop Huser Hfav Hlu Hrm Hsearch Hrec Hru Hal.
  unfold main, review_command, other_command, bind.
  rewrite Hreview, Hlist, Hadd, Htop, Huser, Hfav, Hlu.
  rewrite (zero_is_falsy _ Hrm), (empty_is_falsy _ Hsearch),
    (zero_is_falsy _ Hrec), (zero_is_falsy _ Hru), (zero_is_falsy _ Hal).
  reflexivity.
Qed.

(** [--list] is tested first: given together with any of the other
    commands it is the only one that runs. *)
Theorem main_list_comes_first (a : arguments) (w : world) :
  arg_review a = None -> arg_list a = true ->
  main tabulate py_int get_top_rated recommend_media rowid a w =
    list_media tabulate All w.
Proof.
  intros Hreview Hlist. unfold main, review_command, other_command, bind.
  rewrite Hreview, Hlist. reflexivity.
Qed.

(** X27: A [--review] whose words are not all integers prints the error line,
    writes nothing, and the command given with it still runs. *)
Theorem main_bad_review_continues (a : arguments) (w : world)
    (words : string * string * string) (e : string) :
  arg_review a = Some words ->
  parse_review py_int words = inr e ->
  main tabulate py_int get_top_rated recommend_media rowid a w =
    other_command tabulate get_top_rated recommend_media rowid a
      (after_events w
         [Print ("Error: user_id, media_id, and rating must be integers. "
                 +:+ e)]).
Proof.
  intros Hreview Hparse. unfold main, review_command, bind.
  rewrite Hreview, Hparse. reflexivity.
Qed.

(** X28: A review given without words of comment is stored with the comment
    "No comment provided". *)
Theorem main_review_default_comment (a : arguments) (w : world)
    (words : string * string * string) (user_id media_id rating : Z) :
  arg_review a = Some words ->
  parse_review py_int words = inl (user_id, media_id, rating) ->
  arg_comment a = None \/ arg_comment a = Some [] ->
  In user_id (map u_id (users (w_db w))) ->
  reviews (w_db (snd (review_command py_int a w))) =
    reviews (w_db w) ++
      [{| r_user_id := user_id; r_media_id := media_id; r_rating := rating;
          r_comment := "No comment provided" |}].
Proof.
  intros Hreview Hparse Hcomment Hin. unfold review_command.
  rewrite Hreview, Hparse.
  assert (Hdefault : match arg_comment a with
                     | Some (word :: more) => String.concat " " (word :: more)
                     | Some [] | None => "No comment provided"%string
                     end = "No comment provided"%string)
    by (destruct Hcomment as [->| ->]; reflexivity).
  rewrite Hdefault. unfold bind at 1, print, emit.
  match goal with |- context [add_review ?sch user_id ?b ?w1] =>
    destruct (add_review_known_user sch b user_id w1 Hin) as [tr ->] end.
  reflexivity.
Qed.

End CommandLineProperties.

Lemma main_ignores_zero_ids_witness :
  let a :=
    {| arg_add_media := None; arg_remove_media := Some 0; arg_list := false;
       arg_top_rated := false; arg_search := Some ""%string;
       arg_add_user := None; arg_recommend := None; arg_review := None;
       arg_comment := None; arg_favorite := None; arg_list_users := false;
       arg_remove_user := Some 0; arg_alerts := Some 0 |} in
  main plain_table digit_int (ret tt) (fun _ => ret tt) 3 a sample_world =
    (Ok tt, sample_world).
Proof.
  intros a.
  apply (main_ignores_zero_ids plain_table digit_int (ret tt)
           (fun _ => ret tt) 3 a sample_world);
    try reflexivity; try (left; reflexivity); right; reflexivity.
Defined.

Lemma main_list_comes_first_witness :
  let a :=
    {| arg_add_media := Some ("Up"%string, "Song"%string);
       arg_remove_media := Some 1; arg_list := true;
       arg_top_rated := true; arg_search := None;
       arg_add_user := None; arg_recommend := None; arg_review := None;
       arg_comment := None; arg_favorite := None; arg_list_users := true;
       arg_remove_user := Some 1; arg_alerts := None |} in
  w_db (snd (main plain_table digit_int (ret tt) (fun _ => ret tt) 3 a
               sample_world)) = sample_db.
Proof.
  intros a.
  rewrite (main_list_comes_first plain_table digit_int (ret tt)
             (fun _ => ret tt) 3 a sample_world eq_refl eq_refl).
  reflexivity.
Defined.

Lemma main_bad_review_continues_witness :
  let a :=
    {| arg_add_media := None; arg_remove_media := None; arg_list := false;
       arg_top_rated := false; arg_search := None;
       arg_add_user := None; arg_recommend := None;
       arg_review := Some ("1"%string, "x"%string, "5"%string);
       arg_comment := None; arg_favorite := None; arg_list_users := true;
       arg_remove_user := None; arg_alerts := None |} in
  main plain_table digit_int (ret tt) (fun _ => ret tt) 3 a sample_world =
    (Ok tt,
     after_events sample_world
       [Print "Error: user_id, media_id, and rating must be integers. invalid literal for int() with base 10: 'x'";
        Print "User IDs and Usernames:"; Print "ID: 1, Username: alice";
        Print "ID: 2, Username: bob"]).
Proof.
  intros a.
  rewrite (main_bad_review_continues plain_table digit_int (ret tt)
             (fun _ => ret tt) 3 a sample_world
             ("1"%string, "x"%string, "5"%string)
             "invalid literal for int() with base 10: 'x'"
             eq_refl eq_refl).
  reflexivity.
Defined.

Lemma main_review_default_comment_witness :
  let a :=
    {| arg_add_media := None; arg_remove_media := None; arg_list := false;
       arg_top_rated := false; arg_search := None;
       arg_add_user := None; arg_recommend := None;
       arg_review := Some ("1"%string, "2"%string, "5"%string);
       arg_comment := Some []; arg_favorite := None; arg_list_users := false;
       arg_remove_user := None; arg_alerts := None |} in
  reviews (w_db (snd (review_command digit_int a sample_world))) =
    [{| r_user_id := 1; r_media_id := 2; r_rating := 5;
        r_comment := "No comment provided" |}].
Proof.
  intros a.
  exact (main_review_default_comment digit_int a sample_world
           ("1"%string, "2"%string, "5"%string) 1 2 5 eq_refl eq_refl
           (or_intror eq_refl) (or_introl eq_refl)).
Defined.

(** ** Favorites and alerts together *)

(** X29: Marking a media item as a favorite subscribes the user to its reviews:
    after [add_favorite] for user [B] and media [M], one review of [M] by
    another, existing user gives [B] exactly one more alert.  [add_favorite]
    itself asks neither whether the user nor whether the media exists. *)
Theorem favorite_then_review (A B M rating : Z) (comment : string)
    (w : world) :
  unique_favorites (w_db w) ->
  In A (map u_id (users (w_db w))) ->
  B <> A ->
  let w1 := snd (add_favorite B M w) in
  let w2 := snd (add_review [(M, rating, comment)] A [(M, rating, comment)] w1) in
  favorited (w_db w1) B M /\
  length (alerts_of B (alerts (w_db w2))) =
    S (length (alerts_of B (alerts (w_db w)))).
Proof.
  intros Huniq Hin Hne w1 w2.
  assert (Huniq1 : unique_favorites (w_db w1))
    by now apply add_favorite_keeps_unique.
  assert (Hfav : favorited (w_db w1) B M).
  { subst w1. unfold favorited. rewrite add_favorite_effect. cbn [snd w_db].
    destruct (existsb _ (favorites (w_db w))) eqn:E.
    - now apply conflict_iff.
    - cbn. apply in_or_app. right. now left. }
  assert (Hsame : users (w_db w1) = users (w_db w) /\
                  alerts (w_db w1) = alerts (w_db w)).
  { subst w1. rewrite add_favorite_effect. cbn [snd w_db].
    destruct (existsb _ (favorites (w_db w))); split; reflexivity. }
  destruct Hsame as [Husers Halerts].
  split; [exact Hfav|]. subst w2.
  assert (Hin1 : In A (map u_id (users (w_db w1)))) by now rewrite Husers.
  destruct (add_review_known_user [(M, rating, comment)]
              [(M, rating, comment)] A w1 Hin1) as [tr ->].
  cbn [snd w_db after_tasks alerts].
  unfold alerts_of at 1. rewrite List.filter_app, length_app.
  fold (alerts_of B (alerts (w_db w1))).
  fold (alerts_of B (batch_alerts (w_db w1) A [(M, rating, comment)])).
  rewrite (batch_alert_count (w_db w1) A B _ Huniq1 Hne), Halerts.
  cbn [List.filter fst].
  assert (Hhas : has_favorited (w_db w1) B M = true)
    by (unfold has_favorited; now apply conflict_iff).
  rewrite Hhas. cbn [length]. lia.
Qed.

Lemma favorite_then_review_witness :
  (unique_favorites (w_db sample_world) /\
   In 2 (map u_id (users (w_db sample_world))) /\ 1 <> 2) /\
  length
    (alerts_of 1
       (alerts
          (w_db (snd (add_review [(2, 4, "good"%string)] 2
                        [(2, 4, "good"%string)]
                        (snd (add_favorite 1 2 sample_world))))))) = 1%nat.
Proof.
  assert (H1 : unique_favorites (w_db sample_world)) by apply NoDup_singleton.
  assert (H2 : In 2 (map u_id (users (w_db sample_world))))
    by (cbn; right; left; reflexivity).
  assert (H3 : 1 <> 2) by lia.
  split; [repeat split; assumption|].
  exact (proj2 (favorite_then_review 2 1 2 4 "good" sample_world H1 H2 H3)).
Defined.
